(** * Submission intake gateway: src/app/api/register/route.ts

    A shallow embedding of the registration route handler (client
    identification, fixed-window rate limiting, text sanitisation, field
    validation, service-option validation and the POST orchestration), and
    the properties of its specification checked against it.

    JavaScript strings are sequences of UTF-16 code units; they are modelled
    as lists of code units, so that [length], [slice], [trim] and the regular
    expression classes count and classify exactly what the engine does. *)

From Stdlib Require Import ZArith NArith List Bool Lia Ascii String.
From stdpp Require Import base gmap list.
Import ListNotations.

Set Default Proof Using "Type".

(** ** JavaScript strings *)

Abbreviation jsstring := (list N).

(** An ASCII literal as a sequence of code units. *)
Fixpoint lit (s : string) : jsstring :=
  match s with
  | EmptyString => []
  | String a r => N_of_ascii a :: lit r
  end.

Arguments lit : simpl never.

Definition SPACE : N := 32%N.
Definition COMMA : N := 44%N.
Definition UNDERSCORE : N := 95%N.

(** [!value] on a string: the empty string is the only falsy one. *)
Definition truthy (s : jsstring) : bool :=
  match s with [] => false | _ :: _ => true end.

(** The class [\s] of a regular expression, which is also the set removed by
    [String.prototype.trim]: WhiteSpace and LineTerminator code points. *)
Definition isWhiteSpace (c : N) : bool :=
  ((9 <=? c) && (c <=? 13) || (c =? 32) || (c =? 0xA0) || (c =? 0x1680)
   || (0x2000 <=? c) && (c <=? 0x200A) || (c =? 0x2028) || (c =? 0x2029)
   || (c =? 0x202F) || (c =? 0x205F) || (c =? 0x3000) || (c =? 0xFEFF))%N.

(** The class [[\u0000-\u001F\u007F]]: C0 controls and DEL. *)
Definition isControl (c : N) : bool := ((c <=? 0x1F) || (c =? 0x7F))%N.

Arguments isWhiteSpace : simpl never.
Arguments isControl : simpl never.

(** [s.replace(/[\u0000-\u001F\u007F]/g, "")] *)
Definition removeControl (s : jsstring) : jsstring :=
  List.filter (fun c => negb (isControl c)) s.

(** [s.replace(/\s+/g, " ")]: the scan emits one space when it enters a run
    of whitespace and nothing for the rest of the run ([inRun] records that
    the previous code unit belonged to the run being replaced). *)
Fixpoint replaceRuns (inRun : bool) (s : jsstring) : jsstring :=
  match s with
  | [] => []
  | c :: r =>
      if isWhiteSpace c
      then (if inRun then replaceRuns true r else SPACE :: replaceRuns true r)
      else c :: replaceRuns false r
  end.

Definition replaceWhitespace (s : jsstring) : jsstring := replaceRuns false s.

Fixpoint trimStart (s : jsstring) : jsstring :=
  match s with
  | [] => []
  | c :: r => if isWhiteSpace c then trimStart r else s
  end.

Definition trimEnd (s : jsstring) : jsstring := rev (trimStart (rev s)).

Definition trim (s : jsstring) : jsstring := trimEnd (trimStart s).

(** [s.slice(0, e)]: a negative end counts from the end of the string, an
    end past the length is clamped. *)
Definition slice0 (s : jsstring) (e : Z) : jsstring :=
  let len := Z.of_nat (length s) in
  let final := if (e <? 0)%Z then Z.max (len + e) 0 else Z.min e len in
  firstn (Z.to_nat final) s.

(** [s.split(",")[0]]: the text before the first comma. *)
Fixpoint firstSegment (s : jsstring) : jsstring :=
  match s with
  | [] => []
  | c :: r => if (c =? COMMA)%N then [] else c :: firstSegment r
  end.

(** ** The sanitizer *)

(** The value [normalized] of [sanitizeText]. *)
Definition normalize (value : jsstring) : jsstring :=
  trim (replaceWhitespace (removeControl value)).

Definition sanitizeText (value : jsstring) (maxLength : Z) : jsstring :=
  slice0 (normalize value) maxLength.


(** ** Errors and completions *)

(** [class ClientError extends Error { status }]. *)
Record ClientError := mkClientError { message : jsstring; status : Z }.

(** [new ClientError(message)]: the status defaults to 400. *)
Definition newClientError (msg : jsstring) : ClientError := mkClientError msg 400.

(** What a [throw] carries: a [ClientError], or an [Error] that is not one
    (the handler's own [new Error(...)], or a fault of the platform). *)
Inductive Exn :=
| ThrownClientError (e : ClientError)
| ThrownError (msg : jsstring).

(** The completion of a call: a normal return or a throw. *)
Inductive Completion (A : Type) :=
| Return (a : A)
| Throw (e : Exn).
Arguments Return {A} a.
Arguments Throw {A} e.

#[global] Instance Completion_ret : MRet Completion := fun A a => Return a.
#[global] Instance Completion_bind : MBind Completion := fun A B k c =>
  match c with
  | Return a => k a
  | Throw e => Throw e
  end.

(** ** Client identification *)

(** The part of a request the handler reads: its headers ([Headers.get]
    yields the value or null) and its form body ([None] when [formData()]
    rejects because the body cannot be read as a form). *)
Inductive FormDataEntryValue :=
| FormString (s : jsstring)
| FormFile (name : jsstring).

Abbreviation FormData := (list (jsstring * FormDataEntryValue)).

Record NextRequest := mkRequest {
  headers : gmap jsstring jsstring;
  body : option FormData
}.

(** [x || d] for [x : string | null | undefined]. *)
Definition orDefault (x : option jsstring) (d : jsstring) : jsstring :=
  match x with
  | Some s => if truthy s then s else d
  | None => d
  end.

Definition getClientId (req : NextRequest) : jsstring :=
  let forwardedFor := headers req !! lit "x-forwarded-for" in
  match forwardedFor with
  | Some f =>
      if truthy f
      then orDefault (Some (trim (firstSegment f))) (lit "unknown")
      else orDefault (headers req !! lit "x-real-ip") (lit "unknown")
  | None => orDefault (headers req !! lit "x-real-ip") (lit "unknown")
  end.

(** ** Rate limiter *)

Definition RATE_LIMIT_WINDOW_MS : Z := 5 * 60 * 1000.
Definition RATE_LIMIT_MAX_REQUESTS : Z := 10.

Record RateLimitEntry := mkEntry { hits : Z; expiresAt : Z }.

Definition tooManyRequests : ClientError :=
  mkClientError (lit "Demasiadas solicitudes, intenta de nuevo en unos minutos.") 429.

(** [enforceRateLimit], with [Date.now()] and [rateLimitStore] made explicit:
    the completion and the store after the call. *)
Definition enforceRateLimit (now : Z) (clientId : jsstring)
    (rateLimitStore : gmap jsstring RateLimitEntry)
    : Completion unit * gmap jsstring RateLimitEntry :=
  match rateLimitStore !! clientId with
  | Some entry =>
      if (expiresAt entry >? now)%Z then
        if (hits entry >=? RATE_LIMIT_MAX_REQUESTS)%Z
        then (Throw (ThrownClientError tooManyRequests), rateLimitStore)
        else (Return tt,
              <[clientId := mkEntry (hits entry + 1) (expiresAt entry)]> rateLimitStore)
      else (Return tt,
            <[clientId := mkEntry 1 (now + RATE_LIMIT_WINDOW_MS)]> rateLimitStore)
  | None =>
      (Return tt, <[clientId := mkEntry 1 (now + RATE_LIMIT_WINDOW_MS)]> rateLimitStore)
  end.

(** A sequence of calls by one client, at the given readings of the clock. *)
Fixpoint enforceSeq (clientId : jsstring) (times : list Z)
    (rateLimitStore : gmap jsstring RateLimitEntry)
    : list (Completion unit) * gmap jsstring RateLimitEntry :=
  match times with
  | [] => ([], rateLimitStore)
  | now :: later =>
      let '(c, st) := enforceRateLimit now clientId rateLimitStore in
      let '(cs, st') := enforceSeq clientId later st in
      (c :: cs, st')
  end.

(** Calls by any clients, interleaved. *)
Fixpoint enforceAll (calls : list (jsstring * Z))
    (rateLimitStore : gmap jsstring RateLimitEntry)
    : list (Completion unit) * gmap jsstring RateLimitEntry :=
  match calls with
  | [] => ([], rateLimitStore)
  | (clientId, now) :: later =>
      let '(c, st) := enforceRateLimit now clientId rateLimitStore in
      let '(cs, st') := enforceAll later st in
      (c :: cs, st')
  end.

(** ** Regular expressions

    The patterns of the route are anchored at both ends and use character
    classes, concatenation and counted repetition only, so [RegExp.test]
    decides membership of the whole string in a regular language; it is
    computed here with derivatives. *)

Inductive regex :=
| RNone
| REps
| RClass (p : N -> bool)
| RSeq (a b : regex)
| RAlt (a b : regex)
| RStar (a : regex).

Fixpoint nullable (r : regex) : bool :=
  match r with
  | RNone => false
  | REps => true
  | RClass _ => false
  | RSeq a b => nullable a && nullable b
  | RAlt a b => nullable a || nullable b
  | RStar _ => true
  end.

Definition mkSeq (a b : regex) : regex :=
  match a, b with
  | RNone, _ => RNone
  | _, RNone => RNone
  | REps, _ => b
  | _, _ => RSeq a b
  end.

Definition mkAlt (a b : regex) : regex :=
  match a, b with
  | RNone, _ => b
  | _, RNone => a
  | _, _ => RAlt a b
  end.

Fixpoint deriv (c : N) (r : regex) : regex :=
  match r with
  | RNone => RNone
  | REps => RNone
  | RClass p => if p c then REps else RNone
  | RSeq a b =>
      if nullable a
      then mkAlt (mkSeq (deriv c a) b) (deriv c b)
      else mkSeq (deriv c a) b
  | RAlt a b => mkAlt (deriv c a) (deriv c b)
  | RStar a => mkSeq (deriv c a) (RStar a)
  end.

(** [/^r$/.test(s)] *)
Definition test (r : regex) (s : jsstring) : bool :=
  nullable (fold_left (fun r c => deriv c r) s r).

(** [r+] *)
Definition rPlus (r : regex) : regex := RSeq r (RStar r).

(** [r{0,n}] *)
Fixpoint rUpTo (r : regex) (n : nat) : regex :=
  match n with
  | O => REps
  | S k => RAlt REps (RSeq r (rUpTo r k))
  end.

(** [r{lo,lo+more}] *)
Fixpoint rRepeat (r : regex) (lo more : nat) : regex :=
  match lo with
  | O => rUpTo r more
  | S k => RSeq r (rRepeat r k more)
  end.

Definition isDigit (c : N) : bool := ((48 <=? c) && (c <=? 57))%N.
Definition isAlnum (c : N) : bool :=
  ((65 <=? c) && (c <=? 90) || (97 <=? c) && (c <=? 122))%N || isDigit c.
Definition among (cs : list N) (c : N) : bool := existsb (N.eqb c) cs.

(** [/^[^\s@]+@[^\s@]+\.[^\s@]+$/] *)
Definition emailPattern : regex :=
  let atom := RClass (fun c => negb (isWhiteSpace c || (c =? 64)%N)) in
  RSeq (rPlus atom)
    (RSeq (RClass (N.eqb 64))
       (RSeq (rPlus atom) (RSeq (RClass (N.eqb 46)) (rPlus atom)))).

(** [/^[0-9+()\-.\s]{7,20}$/] *)
Definition phonePattern : regex :=
  rRepeat
    (RClass (fun c => isDigit c || among (lit "+()-.") c || isWhiteSpace c))
    7 13.

(** [/^[A-Za-z0-9°º\s-]{1,15}$/] (the ordinal marks are U+00B0 and U+00BA) *)
Definition gradePattern : regex :=
  rRepeat
    (RClass (fun c => isAlnum c || among [0xB0; 0xBA; 45]%N c || isWhiteSpace c))
    1 14.

(** [/^[A-Za-z0-9\-.]{5,30}$/] *)
Definition idPattern : regex :=
  rRepeat (RClass (fun c => isAlnum c || among (lit "-.") c)) 5 25.

(** ** Form data *)

(** [formData.get(key)]: the first value under the name, or null. *)
Fixpoint get (formData : FormData) (key : jsstring) : option FormDataEntryValue :=
  match formData with
  | [] => None
  | (k, v) :: rest => if bool_decide (k = key) then Some v else get rest key
  end.

(** [formData.getAll(key)]: every value under the name, in order. *)
Fixpoint getAll (formData : FormData) (key : jsstring) : list FormDataEntryValue :=
  match formData with
  | [] => []
  | (k, v) :: rest =>
      if bool_decide (k = key) then v :: getAll rest key else getAll rest key
  end.

(** [value.toString()]: a string is itself, a [File] is an object. *)
Definition toString (value : FormDataEntryValue) : jsstring :=
  match value with
  | FormString s => s
  | FormFile _ => lit "[object File]"
  end.

(** Truthiness of an entry value: only the empty string is falsy. *)
Definition truthyValue (value : FormDataEntryValue) : bool :=
  match value with
  | FormString s => truthy s
  | FormFile _ => true
  end.

(** ** Field validation *)

(** The [options] argument of [parseField]; a pattern is used through its
    [test] method only. *)
Record FieldOptions := mkOptions {
  maxLength : option Z;
  pattern : option (jsstring -> bool);
  label : option jsstring
}.

(** [key.replace(/_/g, " ")] *)
Definition replaceUnderscores (key : jsstring) : jsstring :=
  map (fun c => if (c =? UNDERSCORE)%N then SPACE else c) key.

(** [options.label || key.replace(/_/g, " ")] *)
Definition fieldLabel (key : jsstring) (options : FieldOptions) : jsstring :=
  orDefault (label options) (replaceUnderscores key).

Definition requiredError (lbl : jsstring) : ClientError :=
  newClientError (lit "El campo " ++ lbl ++ lit " es obligatorio.").

Definition formatError (lbl : jsstring) : ClientError :=
  newClientError (lbl ++ lit " tiene un formato inv" ++ [0xE1%N] ++ lit "lido.").

Arguments requiredError : simpl never.
Arguments formatError : simpl never.

Definition parseField (formData : FormData) (key : jsstring)
    (options : FieldOptions) : Completion jsstring :=
  let lbl := fieldLabel key options in
  match get formData key with
  | None => Throw (ThrownClientError (requiredError lbl))
  | Some value =>
      if negb (truthyValue value)
      then Throw (ThrownClientError (requiredError lbl))
      else
        let sanitized := sanitizeText (toString value) (default 180%Z (maxLength options)) in
        if negb (truthy sanitized)
        then Throw (ThrownClientError (requiredError lbl))
        else
          match pattern options with
          | Some p =>
              if negb (p sanitized)
              then Throw (ThrownClientError (formatError lbl))
              else Return sanitized
          | None => Return sanitized
          end
  end.

(** ** Service options *)

Definition ALLOWED_SERVICES : gset jsstring :=
  {[ lit "AM"; lit "PM"; lit "1/2" ]}.

(** [Array.from(new Set(l))]: a [Set] keeps insertion order, so the first
    occurrence of each value stays and later ones are dropped; [seen] holds
    the values inserted so far. *)
Fixpoint uniqueFrom (seen : list jsstring) (l : list jsstring) : list jsstring :=
  match l with
  | [] => []
  | x :: r =>
      if bool_decide (x ∈ seen) then uniqueFrom seen r
      else x :: uniqueFrom (x :: seen) r
  end.

Definition servicesError : ClientError :=
  newClientError
    (lit "Selecciona al menos un servicio v" ++ [0xE1%N] ++ lit "lido (AM, PM o 1/2).").

Definition parseServices (formData : FormData) : Completion (list jsstring) :=
  let services :=
    List.filter truthy
      (map (fun x => sanitizeText (toString x) 10) (getAll formData (lit "service_options"))) in
  let unique := uniqueFrom [] services in
  let invalid := List.filter (fun s => negb (bool_decide (s ∈ ALLOWED_SERVICES))) unique in
  if (0 <? Z.of_nat (length invalid))%Z || (Z.of_nat (length unique) =? 0)%Z
  then Throw (ThrownClientError servicesError)
  else Return unique.

(** ** The handler *)

(** The row handed to [insert]. *)
Record Submission := mkSubmission {
  student_name : jsstring;
  grade : jsstring;
  service_options : list jsstring;
  address : jsstring;
  municipio : jsstring;
  sector : jsstring;
  urbanizacion : jsstring;
  bloque : jsstring;
  father_name : jsstring;
  father_phone : jsstring;
  father_office_phone : jsstring;
  father_email : jsstring;
  mother_name : jsstring;
  mother_phone : jsstring;
  mother_office_phone : jsstring;
  mother_email : jsstring;
  other_guardian : jsstring;
  other_guardian_phone : jsstring;
  responsible_id : jsstring;
  observaciones : jsstring
}.

(** The error object of the store client; its content is opaque to the
    handler. *)
Record StoreError := mkStoreError { detail : jsstring }.

(** What the handler does to the outside: a line on the error console, or an
    insert sent to the store. *)
Inductive Logged :=
| LoggedStoreError (e : StoreError)
| LoggedExn (e : Exn).

Inductive Event :=
| ConsoleError (tag : jsstring) (what : Logged)
| StoreInsert (table : jsstring) (row : Submission).

(** What a call reads from its surroundings: the clock and the outcome the
    store gives to an insert ([None] is [{ error: null }]). *)
Record Env := mkEnv {
  now : Z;
  insertOutcome : Submission -> option StoreError
}.

(** The state a call runs in: the module-level [rateLimitStore] and the
    events so far, oldest first. *)
Record World := mkWorld {
  rateLimitStore : gmap jsstring RateLimitEntry;
  events : list Event
}.

Definition M (A : Type) : Type := World -> Completion A * World.

#[global] Instance M_ret : MRet M := fun A a w => (Return a, w).
#[global] Instance M_bind : MBind M := fun A B k m w =>
  match m w with
  | (Return a, w') => k a w'
  | (Throw e, w') => (Throw e, w')
  end.

Definition throw {A} (e : Exn) : M A := fun w => (Throw e, w).

Definition liftC {A} (c : Completion A) : M A := fun w => (c, w).

(** [try { body } catch (err) { handler(err) }] *)
Definition tryCatch {A} (body : M A) (handler : Exn -> M A) : M A := fun w =>
  match body w with
  | (Return a, w') => (Return a, w')
  | (Throw e, w') => handler e w'
  end.

Definition emit (ev : Event) : M unit := fun w =>
  (Return tt, mkWorld (rateLimitStore w) (events w ++ [ev])).

Definition consoleError (tag : jsstring) (what : Logged) : M unit :=
  emit (ConsoleError tag what).

Definition enforceRateLimitM (env : Env) (clientId : jsstring) : M unit := fun w =>
  let '(c, st) := enforceRateLimit (now env) clientId (rateLimitStore w) in
  (c, mkWorld st (events w)).

(** [await req.formData()] *)
Definition formDataOf (req : NextRequest) : M FormData :=
  match body req with
  | Some fd => mret fd
  | None => throw (ThrownError (lit "Failed to parse body as FormData."))
  end.

(** [await supabase.from(table).insert(row)], destructured to its [error]. *)
Definition supabaseInsert (env : Env) (table : jsstring) (row : Submission)
    : M (option StoreError) :=
  emit (StoreInsert table row) ;; mret (insertOutcome env row).

(** The JSON body and status of a [NextResponse]. *)
Record Json := mkJson {
  success : bool;
  json_message : option jsstring;
  json_error : option jsstring
}.

Record NextResponse := mkResponse { json : Json; response_status : Z }.

Definition genericFailure : jsstring :=
  lit "Error interno, intenta m" ++ [0xE1%N] ++ lit "s tarde.".

Definition phoneTest : option (jsstring -> bool) := Some (test phonePattern).
Definition emailTest : option (jsstring -> bool) := Some (test emailPattern).

Definition POST (env : Env) (req : NextRequest) : M NextResponse :=
  tryCatch
    (enforceRateLimitM env (getClientId req) ;;
     formData ← formDataOf req;
     student_name ← liftC (parseField formData (lit "student_name")
       (mkOptions (Some 120%Z) None (Some (lit "nombre del estudiante"))));
     grade ← liftC (parseField formData (lit "grade")
       (mkOptions (Some 15%Z) (Some (test gradePattern)) (Some (lit "grado a cursar"))));
     address ← liftC (parseField formData (lit "address")
       (mkOptions (Some 150%Z) None (Some (lit "direcci" ++ [0xF3%N] ++ lit "n"))));
     municipio ← liftC (parseField formData (lit "municipio")
       (mkOptions (Some 100%Z) None None));
     sector ← liftC (parseField formData (lit "sector")
       (mkOptions (Some 100%Z) None None));
     urbanizacion ← liftC (parseField formData (lit "urbanizacion")
       (mkOptions (Some 100%Z) None None));
     bloque ← liftC (parseField formData (lit "bloque")
       (mkOptions (Some 50%Z) None (Some (lit "bloque o interior"))));
     father_name ← liftC (parseField formData (lit "father_name")
       (mkOptions (Some 120%Z) None (Some (lit "nombre del padre"))));
     father_phone ← liftC (parseField formData (lit "father_phone")
       (mkOptions (Some 20%Z) phoneTest (Some (lit "celular del padre"))));
     father_office_phone ← liftC (parseField formData (lit "father_office_phone")
       (mkOptions (Some 20%Z) phoneTest
          (Some (lit "tel" ++ [0xE9%N] ++ lit "fono de oficina (padre)"))));
     father_email ← liftC (parseField formData (lit "father_email")
       (mkOptions (Some 120%Z) emailTest (Some (lit "email del padre"))));
     mother_name ← liftC (parseField formData (lit "mother_name")
       (mkOptions (Some 120%Z) None (Some (lit "nombre de la madre"))));
     mother_phone ← liftC (parseField formData (lit "mother_phone")
       (mkOptions (Some 20%Z) phoneTest (Some (lit "celular de la madre"))));
     mother_office_phone ← liftC (parseField formData (lit "mother_office_phone")
       (mkOptions (Some 20%Z) phoneTest
          (Some (lit "tel" ++ [0xE9%N] ++ lit "fono de oficina (madre)"))));
     mother_email ← liftC (parseField formData (lit "mother_email")
       (mkOptions (Some 120%Z) emailTest (Some (lit "email de la madre"))));
     other_guardian ← liftC (parseField formData (lit "other_guardian")
       (mkOptions (Some 120%Z) None (Some (lit "otro acudiente"))));
     other_guardian_phone ← liftC (parseField formData (lit "other_guardian_phone")
       (mkOptions (Some 20%Z) phoneTest (Some (lit "celular del otro acudiente"))));
     responsible_id ← liftC (parseField formData (lit "responsible_id")
       (mkOptions (Some 30%Z) (Some (test idPattern))
          (Some (lit "c" ++ [0xE9%N] ++ lit "dula del responsable"))));
     observaciones ← liftC (parseField formData (lit "observaciones")
       (mkOptions (Some 500%Z) None None));
     service_options ← liftC (parseServices formData);
     insertError ← supabaseInsert env (lit "submissions")
       (mkSubmission student_name grade service_options address municipio sector
          urbanizacion bloque father_name father_phone father_office_phone
          father_email mother_name mother_phone mother_office_phone mother_email
          other_guardian other_guardian_phone responsible_id observaciones);
     match insertError with
     | Some e =>
         consoleError (lit "SUPABASE INSERT ERROR:") (LoggedStoreError e) ;;
         throw (ThrownError (lit "No se pudo guardar el formulario."))
     | None =>
         mret (mkResponse
                 (mkJson true (Some (lit "Formulario enviado correctamente")) None)
                 200)
     end)
    (fun err =>
       consoleError (lit "API ERROR:") (LoggedExn err) ;;
       let status := match err with ThrownClientError e => status e | _ => 500%Z end in
       let message :=
         match err with ThrownClientError e => message e | _ => genericFailure end in
       mret (mkResponse (mkJson false None (Some message)) status)).

(** ** Vocabulary of the properties *)

(** No C0 control character and no DEL. *)
Definition noControl (s : jsstring) : Prop :=
  Forall (fun c => isControl c = false) s.

(** No two consecutive whitespace characters. *)
Definition noWhitespaceRun (s : jsstring) : Prop :=
  forall l1 a b l2, s = l1 ++ a :: b :: l2 ->
    ~ (isWhiteSpace a = true /\ isWhiteSpace b = true).

(** Every whitespace character is a space and is followed by a character
    that is not whitespace (or by nothing). *)
Fixpoint singleSpaced (s : jsstring) : bool :=
  match s with
  | [] => true
  | c :: r =>
      (if isWhiteSpace c
       then (c =? SPACE)%N && match r with [] => true | d :: _ => negb (isWhiteSpace d) end
       else true) && singleSpaced r
  end.

(** The first code unit is not whitespace (vacuous on the empty string). *)
Definition headNotSpace (s : jsstring) : bool :=
  match s with [] => true | c :: _ => negb (isWhiteSpace c) end.

Definition lastNotSpace (s : jsstring) : bool := headNotSpace (rev s).

(** Whitespace or control: what leaves nothing behind when sanitized. *)
Definition blank (c : N) : bool := isControl c || isWhiteSpace c.

(** The calls of one client among interleaved calls, and their completions. *)
Definition callsOf (clientId : jsstring) (calls : list (jsstring * Z)) : list Z :=
  map snd (List.filter (fun call => bool_decide (fst call = clientId)) calls).

Fixpoint completionsOf (clientId : jsstring) (calls : list (jsstring * Z))
    (cs : list (Completion unit)) : list (Completion unit) :=
  match calls, cs with
  | (k, _) :: calls', c :: cs' =>
      if bool_decide (k = clientId)
      then c :: completionsOf clientId calls' cs'
      else completionsOf clientId calls' cs'
  | _, _ => []
  end.

(** Ten calls of one client within five minutes, among calls of a client
    without address headers. *)
Definition sampleCalls : list (jsstring * Z) :=
  [(lit "198.51.100.4", 1000); (lit "unknown", 1001); (lit "198.51.100.4", 1002);
   (lit "198.51.100.4", 1003); (lit "198.51.100.4", 2000); (lit "unknown", 2001);
   (lit "198.51.100.4", 2002); (lit "198.51.100.4", 90000);
   (lit "198.51.100.4", 90001); (lit "198.51.100.4", 200000);
   (lit "198.51.100.4", 300000); (lit "198.51.100.4", 300999)]%Z.

(** The sanitized, non-empty service options of a form, before
    deduplication. *)
Definition sanitizedServices (formData : FormData) : list jsstring :=
  List.filter truthy
    (map (fun x => sanitizeText (toString x) 10) (getAll formData (lit "service_options"))).

(** A form carrying the given raw service options and nothing else. *)
Definition servicesForm (raw : list jsstring) : FormData :=
  map (fun s => (lit "service_options", FormString s)) raw.

(** The mandatory fields in the order [POST] validates them, each with the
    options of its call. *)
Definition mandatoryFields : list (jsstring * FieldOptions) :=
  [ (lit "student_name", mkOptions (Some 120%Z) None (Some (lit "nombre del estudiante")));
    (lit "grade",
       mkOptions (Some 15%Z) (Some (test gradePattern)) (Some (lit "grado a cursar")));
    (lit "address",
       mkOptions (Some 150%Z) None (Some (lit "direcci" ++ [0xF3%N] ++ lit "n")));
    (lit "municipio", mkOptions (Some 100%Z) None None);
    (lit "sector", mkOptions (Some 100%Z) None None);
    (lit "urbanizacion", mkOptions (Some 100%Z) None None);
    (lit "bloque", mkOptions (Some 50%Z) None (Some (lit "bloque o interior")));
    (lit "father_name", mkOptions (Some 120%Z) None (Some (lit "nombre del padre")));
    (lit "father_phone", mkOptions (Some 20%Z) phoneTest (Some (lit "celular del padre")));
    (lit "father_office_phone",
       mkOptions (Some 20%Z) phoneTest
         (Some (lit "tel" ++ [0xE9%N] ++ lit "fono de oficina (padre)")));
    (lit "father_email", mkOptions (Some 120%Z) emailTest (Some (lit "email del padre")));
    (lit "mother_name", mkOptions (Some 120%Z) None (Some (lit "nombre de la madre")));
    (lit "mother_phone", mkOptions (Some 20%Z) phoneTest (Some (lit "celular de la madre")));
    (lit "mother_office_phone",
       mkOptions (Some 20%Z) phoneTest
         (Some (lit "tel" ++ [0xE9%N] ++ lit "fono de oficina (madre)")));
    (lit "mother_email", mkOptions (Some 120%Z) emailTest (Some (lit "email de la madre")));
    (lit "other_guardian", mkOptions (Some 120%Z) None (Some (lit "otro acudiente")));
    (lit "other_guardian_phone",
       mkOptions (Some 20%Z) phoneTest (Some (lit "celular del otro acudiente")));
    (lit "responsible_id",
       mkOptions (Some 30%Z) (Some (test idPattern))
         (Some (lit "c" ++ [0xE9%N] ++ lit "dula del responsable")));
    (lit "observaciones", mkOptions (Some 500%Z) None None) ].

(** The fields validated one after the other, stopping at the first throw. *)
Fixpoint parseFields (formData : FormData) (fields : list (jsstring * FieldOptions))
    : Completion (list jsstring) :=
  match fields with
  | [] => Return []
  | (key, options) :: rest =>
      match parseField formData key options with
      | Throw e => Throw e
      | Return v =>
          match parseFields formData rest with
          | Throw e => Throw e
          | Return vs => Return (v :: vs)
          end
      end
  end.

(** The row built from the validated values, taken in the order of
    [mandatoryFields]. *)
Definition rowOf (values : list jsstring) (services : list jsstring) : Submission :=
  let at_ i := nth i values [] in
  mkSubmission (at_ 0) (at_ 1) services (at_ 2) (at_ 3) (at_ 4) (at_ 5) (at_ 6)
    (at_ 7) (at_ 8) (at_ 9) (at_ 10) (at_ 11) (at_ 12) (at_ 13) (at_ 14) (at_ 15)
    (at_ 16) (at_ 17) (at_ 18).

(** A field passes validation. *)
Definition passes (formData : FormData) (field : jsstring * FieldOptions) : Prop :=
  exists v, parseField formData (fst field) (snd field) = Return v.

(** The rate limiter admits the request. *)
Definition admits (env : Env) (req : NextRequest) (w : World) : Prop :=
  fst (enforceRateLimit (now env) (getClientId req) (rateLimitStore w)) = Return tt.

(** The rows sent to the store, oldest first. *)
Definition inserts (evs : list Event) : list Submission :=
  omap (fun ev => match ev with StoreInsert _ row => Some row | _ => None end) evs.

Definition errorResponse (message : jsstring) (status : Z) : NextResponse :=
  mkResponse (mkJson false None (Some message)) status.

Definition successResponse : NextResponse :=
  mkResponse (mkJson true (Some (lit "Formulario enviado correctamente")) None) 200.

(** The catch block of [POST], run on the state reached by the throw. *)
Definition caught (err : Exn) (st : gmap jsstring RateLimitEntry) (evs : list Event)
    : Completion NextResponse * World :=
  (Return
     (errorResponse
        (match err with ThrownClientError e => message e | _ => genericFailure end)
        (match err with ThrownClientError e => status e | _ => 500%Z end)),
   mkWorld st (evs ++ [ConsoleError (lit "API ERROR:") (LoggedExn err)])).

(** [POST] stage by stage. *)
Definition outcome (env : Env) (req : NextRequest) (w : World)
    : Completion NextResponse * World :=
  let '(c, st) := enforceRateLimit (now env) (getClientId req) (rateLimitStore w) in
  match c with
  | Throw e => caught e st (events w)
  | Return _ =>
      match body req with
      | None => caught (ThrownError (lit "Failed to parse body as FormData.")) st (events w)
      | Some formData =>
          match parseFields formData mandatoryFields with
          | Throw e => caught e st (events w)
          | Return values =>
              match parseServices formData with
              | Throw e => caught e st (events w)
              | Return services =>
                  let row := rowOf values services in
                  match insertOutcome env row with
                  | None =>
                      (Return successResponse,
                       mkWorld st (events w ++ [StoreInsert (lit "submissions") row]))
                  | Some d =>
                      caught (ThrownError (lit "No se pudo guardar el formulario.")) st
                        (events w ++ [StoreInsert (lit "submissions") row;
                                      ConsoleError (lit "SUPABASE INSERT ERROR:")
                                        (LoggedStoreError d)])
                  end
              end
          end
      end
  end.

(** A form with all twenty fields valid, and the same form without the
    father's email. *)
Definition entry (key value : string) : jsstring * FormDataEntryValue :=
  (lit key, FormString (lit value)).

Definition sampleFormWithout (missing : string) : FormData :=
  List.filter (fun kv => negb (bool_decide (fst kv = lit missing)))
    [ entry "student_name" "Ana  Maria"; entry "grade" "5"; entry "address" "Calle 1";
      entry "municipio" "Bogota"; entry "sector" "Norte";
      entry "urbanizacion" "Los Pinos"; entry "bloque" "B2";
      entry "father_name" "Juan"; entry "father_phone" "3001234567";
      entry "father_office_phone" "6011234567"; entry "father_email" "juan@mail.co";
      entry "mother_name" "Maria"; entry "mother_phone" "3007654321";
      entry "mother_office_phone" "6017654321"; entry "mother_email" "maria@mail.co";
      entry "other_guardian" "Luis"; entry "other_guardian_phone" "3000000000";
      entry "responsible_id" "1.234.567"; entry "observaciones" "Ninguna";
      entry "service_options" "AM" ].

Definition sampleForm : FormData := sampleFormWithout "".

Definition sampleRequest (formData : FormData) : NextRequest :=
  mkRequest {[ lit "x-real-ip" := lit "203.0.113.7" ]} (Some formData).

(** The words of a text: its maximal runs of characters that are not
    whitespace ([cur] is the word being read). *)
Fixpoint wordsFrom (cur : jsstring) (s : jsstring) : list jsstring :=
  match s with
  | [] => if truthy cur then [cur] else []
  | c :: r =>
      if isWhiteSpace c
      then (if truthy cur then cur :: wordsFrom [] r else wordsFrom [] r)
      else wordsFrom (cur ++ [c]) r
  end.

Definition wordsOf (s : jsstring) : list jsstring := wordsFrom [] s.

(** Words joined by single spaces. *)
Fixpoint joinWords (words : list jsstring) : jsstring :=
  match words with
  | [] => []
  | w :: rest =>
      match rest with
      | [] => w
      | _ :: _ => w ++ SPACE :: joinWords rest
      end
  end.

(** ** Vocabulary of the further properties *)

(** A character that is neither whitespace nor control. *)
Definition visible (c : N) : bool := negb (blank c).

(** The language of a regular expression: the strings a pattern anchored at
    both ends accepts. *)
Inductive matches : regex -> jsstring -> Prop :=
| MEps : matches REps []
| MClass p c : p c = true -> matches (RClass p) [c]
| MSeq a b s t : matches a s -> matches b t -> matches (RSeq a b) (s ++ t)
| MAltL a b s : matches a s -> matches (RAlt a b) s
| MAltR a b s : matches b s -> matches (RAlt a b) s
| MStarNil a : matches (RStar a) []
| MStarApp a s t : matches a s -> matches (RStar a) t -> matches (RStar a) (s ++ t).

(** The character classes of the patterns. *)
Definition emailAtom (c : N) : bool := negb (isWhiteSpace c || (c =? 64)%N).
Definition phoneChar (c : N) : bool :=
  isDigit c || among (lit "+()-.") c || isWhiteSpace c.
Definition gradeChar (c : N) : bool :=
  isAlnum c || among [0xB0; 0xBA; 45]%N c || isWhiteSpace c.
Definition idChar (c : N) : bool := isAlnum c || among (lit "-.") c.

(** The text fields of a row, in the order of [mandatoryFields]. *)
Definition rowValues (row : Submission) : list jsstring :=
  [ student_name row; grade row; address row; municipio row; sector row;
    urbanizacion row; bloque row; father_name row; father_phone row;
    father_office_phone row; father_email row; mother_name row; mother_phone row;
    mother_office_phone row; mother_email row; other_guardian row;
    other_guardian_phone row; responsible_id row; observaciones row ].

(** A value fit for a field: not empty, free of control characters and of
    whitespace runs, not starting with whitespace, within the bound of the
    field and accepted by its pattern. *)
Definition validValue (field : jsstring * FieldOptions) (v : jsstring) : Prop :=
  v <> [] /\ noControl v /\ noWhitespaceRun v /\ headNotSpace v = true /\
  (Z.of_nat (length v) <= default 180%Z (maxLength (snd field)))%Z /\
  (forall p, pattern (snd field) = Some p -> p v = true).

(** A row fit for the store. *)
Definition validRow (row : Submission) : Prop :=
  Forall2 validValue mandatoryFields (rowValues row) /\
  service_options row <> [] /\
  NoDup (service_options row) /\
  (forall x, x ∈ service_options row -> x ∈ ALLOWED_SERVICES).

(** ** The form page (the caller of the route)

    The validation the page runs before it posts the form: its rule table,
    [validateTextField], [validateServices], [validateAll] and the update of
    the selected services in [handleServiceChange]. *)

(** [TextFieldName]: the keys of [fieldRules], in the order of the table. *)
Inductive TextFieldName :=
| F_student_name | F_grade | F_address | F_municipio | F_sector | F_urbanizacion
| F_bloque | F_father_name | F_father_phone | F_father_office_phone | F_father_email
| F_mother_name | F_mother_phone | F_mother_office_phone | F_mother_email
| F_other_guardian | F_other_guardian_phone | F_responsible_id | F_observaciones.

(** [Object.keys(fieldRules)] *)
Definition allTextFields : list TextFieldName :=
  [ F_student_name; F_grade; F_address; F_municipio; F_sector; F_urbanizacion;
    F_bloque; F_father_name; F_father_phone; F_father_office_phone; F_father_email;
    F_mother_name; F_mother_phone; F_mother_office_phone; F_mother_email;
    F_other_guardian; F_other_guardian_phone; F_responsible_id; F_observaciones ].

Definition fieldKey (name : TextFieldName) : jsstring :=
  match name with
  | F_student_name => lit "student_name"
  | F_grade => lit "grade"
  | F_address => lit "address"
  | F_municipio => lit "municipio"
  | F_sector => lit "sector"
  | F_urbanizacion => lit "urbanizacion"
  | F_bloque => lit "bloque"
  | F_father_name => lit "father_name"
  | F_father_phone => lit "father_phone"
  | F_father_office_phone => lit "father_office_phone"
  | F_father_email => lit "father_email"
  | F_mother_name => lit "mother_name"
  | F_mother_phone => lit "mother_phone"
  | F_mother_office_phone => lit "mother_office_phone"
  | F_mother_email => lit "mother_email"
  | F_other_guardian => lit "other_guardian"
  | F_other_guardian_phone => lit "other_guardian_phone"
  | F_responsible_id => lit "responsible_id"
  | F_observaciones => lit "observaciones"
  end.

Record FieldRule := mkRule {
  rule_label : jsstring;
  rule_maxLength : Z;
  rule_pattern : option (jsstring -> bool);
  rule_patternMsg : option jsstring
}.

Definition plainRule (lbl : jsstring) (len : Z) : FieldRule := mkRule lbl len None None.

(** [{ label, ...phoneRule }] *)
Definition phoneRule (lbl : jsstring) : FieldRule :=
  mkRule lbl 20 (Some (test phonePattern))
    (Some (lit "Ingresa un tel" ++ [0xE9%N] ++ lit "fono v" ++ [0xE1%N]
           ++ lit "lido (7-20 d" ++ [0xED%N]
           ++ lit "gitos, se permiten + ( ) - . y espacios).")).

(** [{ label, ...emailRule }] *)
Definition emailRule (lbl : jsstring) : FieldRule :=
  mkRule lbl 120 (Some (test emailPattern))
    (Some (lit "Ingresa un correo v" ++ [0xE1%N] ++ lit "lido.")).

Definition fieldRules (name : TextFieldName) : FieldRule :=
  match name with
  | F_student_name => plainRule (lit "nombre del estudiante") 120
  | F_grade =>
      mkRule (lit "grado a cursar") 15 (Some (test gradePattern))
        (Some (lit "Usa solo letras o n" ++ [0xFA%N] ++ lit "meros, m" ++ [0xE1%N]
               ++ lit "ximo 15 caracteres."))
  | F_address => plainRule (lit "direcci" ++ [0xF3%N] ++ lit "n") 150
  | F_municipio => plainRule (lit "municipio") 100
  | F_sector => plainRule (lit "sector") 100
  | F_urbanizacion => plainRule (lit "urbanizaci" ++ [0xF3%N] ++ lit "n") 100
  | F_bloque => plainRule (lit "bloque o interior") 50
  | F_father_name => plainRule (lit "nombre del padre") 120
  | F_father_phone => phoneRule (lit "celular del padre")
  | F_father_office_phone =>
      phoneRule (lit "tel" ++ [0xE9%N] ++ lit "fono de oficina (padre)")
  | F_father_email => emailRule (lit "email del padre")
  | F_mother_name => plainRule (lit "nombre de la madre") 120
  | F_mother_phone => phoneRule (lit "celular de la madre")
  | F_mother_office_phone =>
      phoneRule (lit "tel" ++ [0xE9%N] ++ lit "fono de oficina (madre)")
  | F_mother_email => emailRule (lit "email de la madre")
  | F_other_guardian => plainRule (lit "otro acudiente") 120
  | F_other_guardian_phone => phoneRule (lit "celular del otro acudiente")
  | F_responsible_id =>
      mkRule (lit "c" ++ [0xE9%N] ++ lit "dula del responsable") 30
        (Some (test idPattern))
        (Some (lit "Solo n" ++ [0xFA%N]
               ++ lit "meros, letras, puntos o guiones (5-30 caracteres)."))
  | F_observaciones => plainRule (lit "observaciones") 500
  end.

From Stdlib Require Import DecimalString.

(** A number in a template literal: its decimal digits. *)
Definition numberToString (n : Z) : jsstring :=
  lit (NilZero.string_of_int (Z.to_int n)).

(** [validateTextField]: the message to show, the empty string when the
    value is accepted. *)
Definition validateTextField (name : TextFieldName) (value : jsstring) : jsstring :=
  let rule := fieldRules name in
  let trimmed := trim value in
  if negb (truthy trimmed)
  then lit "El campo " ++ rule_label rule ++ lit " es obligatorio."
  else if (Z.of_nat (length trimmed) >? rule_maxLength rule)%Z
  then rule_label rule ++ lit " debe tener m" ++ [0xE1%N] ++ lit "ximo "
       ++ numberToString (rule_maxLength rule) ++ lit " caracteres."
  else
    match rule_pattern rule with
    | Some p =>
        if negb (p trimmed)
        then orDefault (rule_patternMsg rule)
               (rule_label rule ++ lit " tiene un formato inv" ++ [0xE1%N] ++ lit "lido.")
        else []
    | None => []
    end.

Definition serviceOptions : list jsstring := [lit "AM"; lit "PM"; lit "1/2"].

Definition validateServices (services : list jsstring) : jsstring :=
  let unique := uniqueFrom [] services in
  let valid := List.filter (fun option => bool_decide (option ∈ serviceOptions)) unique in
  if (Z.of_nat (length valid) =? 0)%Z
  then lit "Selecciona al menos un servicio (AM, PM o 1/2)."
  else [].

(** [FormValues]: a text for every text field, and the selected services. *)
Record FormValues := mkValues {
  texts : TextFieldName -> jsstring;
  selected : list jsstring
}.

(** [validateAll]: the object of messages, keyed by field name; a field
    without a message gets no key. *)
Definition validateAll (nextValues : FormValues) : gmap jsstring jsstring :=
  let newErrors :=
    fold_left
      (fun errs key =>
         let errorMessage := validateTextField key (texts nextValues key) in
         if truthy errorMessage then <[fieldKey key := errorMessage]> errs else errs)
      allTextFields ∅ in
  let servicesError := validateServices (selected nextValues) in
  if truthy servicesError
  then <[lit "service_options" := servicesError]> newErrors
  else newErrors.

(** [nextServices] of [handleServiceChange]: the selection after a box is
    ticked or cleared. *)
Definition nextServices (prev : list jsstring) (option : jsstring) (checked : bool)
    : list jsstring :=
  if checked
  then uniqueFrom [] (prev ++ [option])
  else List.filter (fun value => negb (bool_decide (value = option))) prev.

(** The column of a row that bears the name of a text field. *)
Definition column (name : TextFieldName) (row : Submission) : jsstring :=
  match name with
  | F_student_name => student_name row
  | F_grade => grade row
  | F_address => address row
  | F_municipio => municipio row
  | F_sector => sector row
  | F_urbanizacion => urbanizacion row
  | F_bloque => bloque row
  | F_father_name => father_name row
  | F_father_phone => father_phone row
  | F_father_office_phone => father_office_phone row
  | F_father_email => father_email row
  | F_mother_name => mother_name row
  | F_mother_phone => mother_phone row
  | F_mother_office_phone => mother_office_phone row
  | F_mother_email => mother_email row
  | F_other_guardian => other_guardian row
  | F_other_guardian_phone => other_guardian_phone row
  | F_responsible_id => responsible_id row
  | F_observaciones => observaciones row
  end.

(** * Properties *)

(** ** Sanitizer *)

Section Sanitizer.

Implicit Types (s t : jsstring) (c : N).

Lemma noControl_removeControl s : noControl (removeControl s).
Proof.
  unfold noControl, removeControl. apply List.Forall_forall.
  intros c Hc. apply List.filter_In in Hc as [_ Hc].
  now apply negb_true_iff in Hc.
Qed.

Lemma removeControl_id s : noControl s -> removeControl s = s.
Proof.
  unfold noControl, removeControl. induction 1 as [|c r Hc _ IH]; simpl; [easy|].
  now rewrite Hc, IH.
Qed.

Lemma removeControl_app s t :
  removeControl (s ++ t) = removeControl s ++ removeControl t.
Proof. apply List.filter_app. Qed.

Lemma noControl_replaceRuns b s : noControl s -> noControl (replaceRuns b s).
Proof.
  unfold noControl. intros H. revert b.
  induction H as [|c r Hc _ IH]; intros b; simpl; [constructor|].
  destruct (isWhiteSpace c); [destruct b|]; repeat constructor; auto.
Qed.

(** The output of the replacement is single-spaced, and does not start with
    whitespace when the scan starts inside a run. *)
Lemma replaceRuns_shape b s :
  singleSpaced (replaceRuns b s) = true /\
  (b = true -> headNotSpace (replaceRuns b s) = true).
Proof.
  revert b. induction s as [|c r IH]; intros b; simpl; [easy|].
  destruct (isWhiteSpace c) eqn:Hc.
  - destruct (IH true) as [IH1 IH2]. destruct b.
    + auto.
    + split; [|discriminate]. simpl. rewrite IH1.
      specialize (IH2 eq_refl). unfold headNotSpace in IH2.
      destruct (replaceRuns true r); simpl; [reflexivity|].
      now rewrite IH2.
  - destruct (IH false) as [IH1 _]. simpl. rewrite Hc, IH1. simpl.
    split; reflexivity.
Qed.

Lemma singleSpaced_replaceWhitespace s :
  singleSpaced (replaceWhitespace s) = true.
Proof. apply replaceRuns_shape. Qed.

(** A single-spaced string is left as it is by the replacement. *)
Lemma replaceRuns_id s :
  singleSpaced s = true -> replaceRuns false s = s.
Proof.
  induction s as [|c r IH]; simpl; [easy|].
  intros H. apply andb_true_iff in H as [Hc Hr].
  destruct (isWhiteSpace c) eqn:Ec.
  - apply andb_true_iff in Hc as [Hsp Hnext].
    apply N.eqb_eq in Hsp. subst c. f_equal.
    destruct r as [|d r']; [reflexivity|].
    apply negb_true_iff in Hnext.
    specialize (IH Hr). simpl in *. rewrite Hnext in *. exact IH.
  - f_equal. auto.
Qed.

Lemma singleSpaced_noWhitespaceRun s :
  singleSpaced s = true -> noWhitespaceRun s.
Proof.
  intros H l1 a b l2 ->. revert H.
  induction l1 as [|x l1 IH]; simpl; intros H [Ha Hb].
  - rewrite Ha, Hb in H. rewrite andb_false_r in H. discriminate.
  - apply andb_true_iff in H as [_ H]. now apply IH.
Qed.

Lemma singleSpaced_app_l s t : singleSpaced (s ++ t) = true -> singleSpaced s = true.
Proof.
  induction s as [|c r IH]; simpl; [easy|].
  intros H. apply andb_true_iff in H as [Hc Hr]. rewrite (IH Hr), andb_true_r.
  destruct (isWhiteSpace c); [|reflexivity].
  apply andb_true_iff in Hc as [-> Hn]. destruct r; [reflexivity|exact Hn].
Qed.

Lemma singleSpaced_app_r s t : singleSpaced (s ++ t) = true -> singleSpaced t = true.
Proof.
  induction s as [|c r IH]; simpl; [easy|].
  intros H. apply andb_true_iff in H as [_ Hr]. auto.
Qed.

(** [trimStart] drops a whitespace prefix, [trimEnd] a whitespace suffix. *)
Lemma trimStart_split s :
  exists p, s = p ++ trimStart s /\ forallb isWhiteSpace p = true.
Proof.
  induction s as [|c r [p [Hp Hw]]]; simpl.
  - now exists [].
  - destruct (isWhiteSpace c) eqn:Hc.
    + exists (c :: p). simpl. rewrite Hc, Hw. split; [now f_equal|reflexivity].
    + now exists [].
Qed.

Lemma trimEnd_split s :
  exists q, s = trimEnd s ++ q /\ forallb isWhiteSpace q = true.
Proof.
  unfold trimEnd. destruct (trimStart_split (rev s)) as [p [Hp Hw]].
  exists (rev p). split.
  - rewrite <- (rev_involutive s), Hp at 1. now rewrite rev_app_distr.
  - rewrite forallb_forall in *. intros x Hx. apply Hw. now apply in_rev.
Qed.

Lemma headNotSpace_trimStart s : headNotSpace (trimStart s) = true.
Proof.
  induction s as [|c r IH]; simpl; [reflexivity|].
  destruct (isWhiteSpace c) eqn:Hc; [exact IH|]. simpl. now rewrite Hc.
Qed.

Lemma trimStart_id s : headNotSpace s = true -> trimStart s = s.
Proof.
  destruct s as [|c r]; simpl; [reflexivity|].
  intros H. apply negb_true_iff in H. now rewrite H.
Qed.

Lemma trimEnd_id s : lastNotSpace s = true -> trimEnd s = s.
Proof.
  unfold lastNotSpace, trimEnd. intros H.
  rewrite trimStart_id by exact H. apply rev_involutive.
Qed.

Lemma lastNotSpace_trimEnd s : lastNotSpace (trimEnd s) = true.
Proof.
  unfold lastNotSpace, trimEnd. rewrite rev_involutive. apply headNotSpace_trimStart.
Qed.

(** The normalized text sits inside the text after replacement. *)
Lemma normalize_split value :
  exists p q, replaceWhitespace (removeControl value) = p ++ normalize value ++ q.
Proof.
  unfold normalize, trim.
  destruct (trimStart_split (replaceWhitespace (removeControl value))) as [p [Hp _]].
  destruct (trimEnd_split (trimStart (replaceWhitespace (removeControl value)))) as [q [Hq _]].
  exists p, q. now rewrite <- Hq.
Qed.

Lemma slice0_split s e : exists q, s = slice0 s e ++ q.
Proof. unfold slice0. eexists. symmetry. apply firstn_skipn. Qed.

Lemma slice0_length s e :
  (0 <= e)%Z -> (Z.of_nat (length (slice0 s e)) <= e)%Z.
Proof.
  intros He. unfold slice0. rewrite length_firstn.
  destruct (e <? 0)%Z eqn:E; [apply Z.ltb_lt in E; lia|]. lia.
Qed.

Lemma slice0_id s e : (Z.of_nat (length s) <= e)%Z -> slice0 s e = s.
Proof.
  intros He. unfold slice0.
  destruct (e <? 0)%Z eqn:E; [apply Z.ltb_lt in E; lia|].
  apply firstn_all2. lia.
Qed.

Lemma sanitizeText_split value maxLength :
  exists p q,
    replaceWhitespace (removeControl value) = p ++ sanitizeText value maxLength ++ q.
Proof.
  destruct (normalize_split value) as [p [q H]].
  destruct (slice0_split (normalize value) maxLength) as [r Hr].
  exists p, (r ++ q). unfold sanitizeText. rewrite H, Hr at 1.
  now rewrite <- !app_assoc.
Qed.

Lemma singleSpaced_sanitizeText value maxLength :
  singleSpaced (sanitizeText value maxLength) = true.
Proof.
  destruct (sanitizeText_split value maxLength) as [p [q H]].
  pose proof (singleSpaced_replaceWhitespace (removeControl value)) as S.
  rewrite H in S. apply singleSpaced_app_r in S. now apply singleSpaced_app_l in S.
Qed.

Lemma noControl_sanitizeText value maxLength :
  noControl (sanitizeText value maxLength).
Proof.
  destruct (sanitizeText_split value maxLength) as [p [q H]].
  pose proof (noControl_replaceRuns false _ (noControl_removeControl value)) as C.
  fold (replaceWhitespace (removeControl value)) in C. rewrite H in C.
  unfold noControl in *.
  apply List.Forall_app in C as [_ C]. now apply List.Forall_app in C as [C _].
Qed.

(** C2. For every input string and every positive maximum length, the output
    of [sanitizeText] holds no C0 control character and no DEL, holds no two
    consecutive whitespace characters, and is at most the maximum long. *)
Theorem sanitizeText_output (value : jsstring) (maxLength : Z) :
  (0 < maxLength)%Z ->
  noControl (sanitizeText value maxLength) /\
  noWhitespaceRun (sanitizeText value maxLength) /\
  (Z.of_nat (length (sanitizeText value maxLength)) <= maxLength)%Z.
Proof.
  intros Hpos. split; [apply noControl_sanitizeText|]. split.
  - apply singleSpaced_noWhitespaceRun, singleSpaced_sanitizeText.
  - apply slice0_length. lia.
Qed.

Lemma sanitizeText_output_witness :
  (0 < 5)%Z /\
  sanitizeText [9; 32; 97; 0; 32; 10; 0xA0; 98; 127; 99; 32; 32; 100]%N 5
    = [97; 32; 98; 99; 32]%N /\
  noControl (sanitizeText [9; 32; 97; 0; 32; 10; 0xA0; 98; 127; 99; 32; 32; 100]%N 5) /\
  noWhitespaceRun
    (sanitizeText [9; 32; 97; 0; 32; 10; 0xA0; 98; 127; 99; 32; 32; 100]%N 5) /\
  (Z.of_nat
     (length (sanitizeText [9; 32; 97; 0; 32; 10; 0xA0; 98; 127; 99; 32; 32; 100]%N 5))
   <= 5)%Z.
Proof.
  split; [lia|]. split; [reflexivity|].
  apply (sanitizeText_output _ 5). lia.
Defined.

(** *** Whitespace between two words *)

Lemma replaceRuns_cons_word b x s :
  isWhiteSpace x = false -> replaceRuns b (x :: s) = x :: replaceRuns false s.
Proof. intros H. simpl. now rewrite H. Qed.

Lemma replaceRuns_app_word b s x t :
  isWhiteSpace x = false ->
  replaceRuns b (s ++ x :: t) = replaceRuns b s ++ x :: replaceRuns false t.
Proof.
  intros Hx. revert b. induction s as [|c r IH]; intros b.
  - now apply replaceRuns_cons_word.
  - simpl. destruct (isWhiteSpace c); [destruct b|]; simpl; now rewrite IH.
Qed.

Lemma replaceRuns_inside_run s t :
  forallb isWhiteSpace s = true -> replaceRuns true (s ++ t) = replaceRuns true t.
Proof.
  induction s as [|c r IH]; simpl; [easy|].
  intros H. apply andb_true_iff in H as [-> Hr]. auto.
Qed.

Lemma replaceRuns_enter_run s t :
  forallb isWhiteSpace s = true ->
  replaceRuns false (s ++ t) =
    match s with [] => replaceRuns false t | _ :: _ => SPACE :: replaceRuns true t end.
Proof.
  destruct s as [|c r]; simpl; [easy|].
  intros H. apply andb_true_iff in H as [-> Hr].
  now rewrite replaceRuns_inside_run.
Qed.

Lemma removeControl_blank_iff s :
  forallb isWhiteSpace (removeControl s) = true <-> forallb blank s = true.
Proof.
  unfold removeControl, blank. induction s as [|c r IH]; simpl; [easy|].
  destruct (isControl c); simpl; [exact IH|].
  now rewrite !andb_true_iff, IH.
Qed.

Lemma removeControl_nil_iff s :
  removeControl s = [] <-> forallb isControl s = true.
Proof.
  unfold removeControl. induction s as [|c r IH]; simpl; [easy|].
  destruct (isControl c); simpl; [exact IH|]. split; discriminate.
Qed.

Lemma trimStart_app_word s x t :
  isWhiteSpace x = false -> trimStart (s ++ x :: t) = trimStart s ++ x :: t.
Proof.
  intros Hx. induction s as [|c r IH]; simpl.
  - now rewrite Hx.
  - destruct (isWhiteSpace c); [exact IH|reflexivity].
Qed.

Lemma trimEnd_app_word s x t :
  isWhiteSpace x = false -> trimEnd (s ++ x :: t) = s ++ x :: trimEnd t.
Proof.
  intros Hx. unfold trimEnd.
  rewrite rev_app_distr. simpl. rewrite <- app_assoc. simpl.
  rewrite trimStart_app_word by exact Hx.
  rewrite rev_app_distr. simpl. rewrite rev_involutive, <- app_assoc. reflexivity.
Qed.

Lemma headNotSpace_normalize s : headNotSpace (normalize s) = true.
Proof.
  unfold normalize, trim.
  destruct (trimEnd_split (trimStart (replaceWhitespace (removeControl s))))
    as [q [Hq _]].
  pose proof (headNotSpace_trimStart (replaceWhitespace (removeControl s))) as Hh.
  rewrite Hq in Hh. destruct (trimEnd _); [reflexivity|exact Hh].
Qed.

(** *** The normalized text is the words joined by single spaces *)

Lemma trimStart_app s t :
  trimStart (s ++ t) = match trimStart s with [] => trimStart t | _ :: _ => trimStart s ++ t end.
Proof.
  induction s as [|c r IH]; simpl.
  - now destruct (trimStart t).
  - destruct (isWhiteSpace c); [exact IH|reflexivity].
Qed.

Lemma trimEnd_app s t :
  trimEnd (s ++ t) = match trimEnd t with [] => trimEnd s | _ :: _ => s ++ trimEnd t end.
Proof.
  unfold trimEnd. rewrite rev_app_distr, trimStart_app.
  destruct (trimStart (rev t)) as [|c r] eqn:E; [reflexivity|].
  cbv iota. rewrite rev_app_distr, rev_involutive.
  destruct (rev (c :: r)) eqn:E'; [|reflexivity].
  apply (f_equal (@length N)) in E'. rewrite length_rev in E'. discriminate.
Qed.

Lemma trimEnd_word s :
  s <> [] -> forallb (fun c => negb (isWhiteSpace c)) s = true -> trimEnd s = s.
Proof.
  intros Hne Hs. apply trimEnd_id. unfold lastNotSpace.
  destruct (rev s) as [|c r] eqn:E.
  - reflexivity.
  - simpl. rewrite forallb_forall in Hs. apply Hs.
    apply in_rev. rewrite E. now left.
Qed.

Lemma replaceRuns_true s : replaceRuns true s = trimStart (replaceRuns false s).
Proof.
  destruct (replaceRuns_shape true s) as [_ H]. specialize (H eq_refl).
  destruct s as [|c r]; [reflexivity|]. simpl in *.
  destruct (isWhiteSpace c) eqn:Hc.
  - simpl. symmetry. now apply trimStart_id.
  - simpl. now rewrite Hc.
Qed.

Lemma wordsFrom_not_nil cur s : Forall (fun w => w <> []) (wordsFrom cur s).
Proof.
  revert cur. induction s as [|c r IH]; intros cur; simpl.
  - destruct cur; simpl; repeat constructor. discriminate.
  - destruct (isWhiteSpace c); [|apply IH].
    destruct cur; simpl; [apply IH|]. constructor; [discriminate|apply IH].
Qed.

Lemma joinWords_nil_iff words :
  Forall (fun w => w <> []) words -> joinWords words = [] <-> words = [].
Proof.
  intros H. destruct H as [|w rest Hw _]; simpl; [easy|].
  split; [|discriminate]. destruct rest; [contradiction|].
  destruct w; [contradiction|discriminate].
Qed.

Lemma normalize_words_from cur s :
  forallb (fun c => negb (isWhiteSpace c)) cur = true ->
  trimEnd (cur ++ (if truthy cur then replaceRuns false s
                   else trimStart (replaceRuns false s)))
  = joinWords (wordsFrom cur s).
Proof.
  revert cur. induction s as [|c r IH]; intros cur Hcur.
  - simpl. destruct cur as [|x cur'] eqn:E; [reflexivity|].
    simpl truthy. cbv iota. rewrite app_nil_r. simpl joinWords.
    now apply trimEnd_word.
  - simpl replaceRuns. simpl wordsFrom. destruct (isWhiteSpace c) eqn:Hc.
    + rewrite replaceRuns_true.
      pose proof (IH [] eq_refl) as IH0. simpl in IH0.
      destruct cur as [|x cur'] eqn:E.
      * simpl.
        rewrite trimStart_id by apply headNotSpace_trimStart. exact IH0.
      * simpl truthy. cbv iota. rewrite <- E in *.
        change (cur ++ SPACE :: trimStart (replaceRuns false r))
          with (cur ++ [SPACE] ++ trimStart (replaceRuns false r)).
        rewrite app_assoc, trimEnd_app, IH0.
        pose proof (wordsFrom_not_nil [] r) as Hne.
        destruct (wordsFrom [] r) as [|w ws] eqn:Ew.
        -- simpl. rewrite trimEnd_app. simpl.
           unfold trimEnd at 1. simpl.
           apply trimEnd_word; [subst; discriminate|exact Hcur].
        -- destruct (joinWords (w :: ws)) as [|j js] eqn:Ej.
           ++ apply (joinWords_nil_iff _ Hne) in Ej. discriminate.
           ++ rewrite <- app_assoc. simpl. subst cur. simpl.
              simpl in Ej. now rewrite Ej.
    + assert (Hcur' : forallb (fun c => negb (isWhiteSpace c)) (cur ++ [c]) = true).
      { rewrite forallb_app, Hcur. simpl. now rewrite Hc. }
      specialize (IH (cur ++ [c]) Hcur').
      assert (Ht : truthy (cur ++ [c]) = true) by now destruct cur.
      rewrite Ht in IH. rewrite <- IH, <- app_assoc. simpl.
      destruct cur as [|x cur']; simpl; [now rewrite Hc|reflexivity].
Qed.

(** The normalized text: controls removed, split at whitespace, joined by
    single spaces. *)
Lemma normalize_words s : normalize s = joinWords (wordsOf (removeControl s)).
Proof.
  unfold normalize, trim, replaceWhitespace, wordsOf.
  now rewrite <- (normalize_words_from [] (removeControl s) eq_refl).
Qed.

(** C6, refuted as stated: a newline is whitespace, and two letters
    separated by a newline only are not separated by a space in the
    normalized text; they end up adjacent. *)
Lemma normalize_newline_counterexample :
  ~ (forall (x y : N) (run : jsstring),
       isWhiteSpace x = false -> isControl x = false ->
       isWhiteSpace y = false -> isControl y = false ->
       run <> [] -> forallb isWhiteSpace run = true ->
       normalize (x :: run ++ [y]) = [x; SPACE; y]).
Proof.
  intros H.
  specialize (H 97%N 98%N [10%N] eq_refl eq_refl eq_refl eq_refl).
  discriminate H; [discriminate|reflexivity].
Qed.

Lemma normalize_between (before after run : jsstring) (x y : N) :
  isWhiteSpace x = false -> isControl x = false ->
  isWhiteSpace y = false -> isControl y = false ->
  forallb blank run = true ->
  normalize (before ++ x :: run ++ y :: after) =
    trimStart (replaceWhitespace (removeControl before))
    ++ x :: (if forallb isControl run then [] else [SPACE])
    ++ y :: trimEnd (replaceWhitespace (removeControl after)).
Proof.
  intros Hx Cx Hy Cy Hrun.
  unfold normalize, trim, replaceWhitespace.
  assert (Hrm : removeControl (before ++ x :: run ++ y :: after) =
                removeControl before ++ x :: removeControl run
                ++ y :: removeControl after).
  { rewrite removeControl_app. f_equal.
    change (x :: run ++ y :: after) with ([x] ++ run ++ [y] ++ after).
    rewrite !removeControl_app. unfold removeControl at 1 3. simpl.
    now rewrite Cx, Cy. }
  rewrite Hrm.
  rewrite replaceRuns_app_word by exact Hx.
  rewrite replaceRuns_enter_run by now apply removeControl_blank_iff.
  assert (Hsep : match removeControl run with
                 | [] => replaceRuns false (y :: removeControl after)
                 | _ :: _ => SPACE :: replaceRuns true (y :: removeControl after)
                 end =
                 (if forallb isControl run then [] else [SPACE])
                 ++ y :: replaceRuns false (removeControl after)).
  { destruct (removeControl run) eqn:E.
    - apply removeControl_nil_iff in E. rewrite E.
      now rewrite replaceRuns_cons_word.
    - destruct (forallb isControl run) eqn:F.
      + apply removeControl_nil_iff in F. congruence.
      + now rewrite replaceRuns_cons_word. }
  rewrite Hsep.
  rewrite trimStart_app_word by exact Hx.
  set (sep := if forallb isControl run then [] else [SPACE]).
  change (trimStart (replaceRuns false (removeControl before)) ++
          x :: sep ++ y :: replaceRuns false (removeControl after))
    with (trimStart (replaceRuns false (removeControl before)) ++
          (x :: sep) ++ y :: replaceRuns false (removeControl after)).
  rewrite app_assoc, trimEnd_app_word by exact Hy.
  now rewrite <- app_assoc.
Qed.

(** C6, amended. Control characters are removed first, and tab, line feed,
    vertical tab, form feed and carriage return are control characters; the
    text that is left is split at its whitespace and the words are joined by
    single spaces, so every run of the remaining whitespace becomes one
    space and the ends are trimmed; truncation comes last.  So two
    characters that are neither whitespace nor control, separated by
    whitespace and control characters only, are separated by exactly one
    space in the normalized text when the run holds a whitespace character
    that is not a control character, and are adjacent when the run consists
    of control characters only. *)
Theorem normalize_collapses (value : jsstring) :
  normalize value = joinWords (wordsOf (removeControl value)) /\
  headNotSpace (normalize value) = true /\
  lastNotSpace (normalize value) = true /\
  (forall maxLength,
     sanitizeText value maxLength = slice0 (normalize value) maxLength) /\
  (forall before x run y after,
     value = before ++ x :: run ++ y :: after ->
     isWhiteSpace x = false -> isControl x = false ->
     isWhiteSpace y = false -> isControl y = false ->
     forallb blank run = true ->
     normalize value =
       trimStart (replaceWhitespace (removeControl before))
       ++ x :: (if forallb isControl run then [] else [SPACE])
       ++ y :: trimEnd (replaceWhitespace (removeControl after))).
Proof.
  split; [apply normalize_words|].
  split; [apply headNotSpace_normalize|].
  split; [apply lastNotSpace_trimEnd|].
  split; [reflexivity|].
  intros before x run y after ->. apply normalize_between.
Qed.

Lemma normalize_collapses_witness :
  (isWhiteSpace 48 = false /\ isControl 48 = false /\
   isWhiteSpace 65 = false /\ isControl 65 = false /\
   forallb blank [9; 32; 10]%N = true /\ forallb blank [13; 10]%N = true) /\
  normalize (lit "  Calle 1" ++ 48%N :: [9; 32; 10]%N ++ 65%N :: lit "pto 2 ")
    = lit "Calle 10 Apto 2" /\
  normalize (lit "Calle 1" ++ 48%N :: [13; 10]%N ++ 65%N :: lit "pto 2")
    = lit "Calle 10Apto 2".
Proof.
  split; [repeat split|]. split.
  - rewrite (proj2 (proj2 (proj2 (proj2 (normalize_collapses
               (lit "  Calle 1" ++ 48%N :: [9; 32; 10]%N ++ 65%N :: lit "pto 2 ")))))
               (lit "  Calle 1") 48%N [9; 32; 10]%N 65%N (lit "pto 2 ")
               eq_refl eq_refl eq_refl eq_refl eq_refl eq_refl).
    reflexivity.
  - rewrite (proj2 (proj2 (proj2 (proj2 (normalize_collapses
               (lit "Calle 1" ++ 48%N :: [13; 10]%N ++ 65%N :: lit "pto 2")))))
               (lit "Calle 1") 48%N [13; 10]%N 65%N (lit "pto 2")
               eq_refl eq_refl eq_refl eq_refl eq_refl eq_refl).
    reflexivity.
Defined.

End Sanitizer.

(** ** Validator *)

Section Validator.

Implicit Types (s t v : jsstring) (formData : FormData) (options : FieldOptions).

Lemma headNotSpace_sanitizeText s m : headNotSpace (sanitizeText s m) = true.
Proof.
  unfold sanitizeText. destruct (slice0_split (normalize s) m) as [q Hq].
  pose proof (headNotSpace_normalize s) as Hh. rewrite Hq in Hh.
  destruct (slice0 _ _); [reflexivity|exact Hh].
Qed.

(** Text that is already clean is a fixed point of the normalization, up to
    the whitespace at its end. *)
Lemma normalize_clean v :
  noControl v -> singleSpaced v = true -> headNotSpace v = true ->
  normalize v = trimEnd v.
Proof.
  intros Hc Hs Hh. unfold normalize, trim, replaceWhitespace.
  now rewrite removeControl_id, replaceRuns_id, trimStart_id.
Qed.

Lemma trimEnd_fixed_iff s : trimEnd s = s <-> lastNotSpace s = true.
Proof.
  split; [|apply trimEnd_id].
  intros H. rewrite <- H. apply lastNotSpace_trimEnd.
Qed.

(** Whitespace and control characters only: nothing is left. *)
Lemma replaceRuns_blank b s :
  forallb isWhiteSpace s = true ->
  forallb isWhiteSpace (replaceRuns b s) = true.
Proof.
  revert b. induction s as [|c r IH]; intros b; simpl; [easy|].
  intros H. apply andb_true_iff in H as [-> Hr].
  destruct b; simpl; auto.
Qed.

Lemma trimStart_blank s : forallb isWhiteSpace s = true -> trimStart s = [].
Proof.
  induction s as [|c r IH]; simpl; [easy|].
  intros H. apply andb_true_iff in H as [-> Hr]. auto.
Qed.

Lemma trimStart_nil_iff s : trimStart s = [] <-> forallb isWhiteSpace s = true.
Proof.
  split; [|apply trimStart_blank].
  induction s as [|c r IH]; simpl; [easy|].
  destruct (isWhiteSpace c); [exact IH|discriminate].
Qed.

Lemma forallb_rev (p : N -> bool) s : forallb p (rev s) = forallb p s.
Proof.
  induction s as [|c r IH]; simpl; [reflexivity|].
  rewrite forallb_app, IH. simpl. rewrite andb_true_r. apply andb_comm.
Qed.

Lemma trimEnd_nil_iff s : trimEnd s = [] <-> forallb isWhiteSpace s = true.
Proof.
  unfold trimEnd. rewrite <- (forallb_rev _ s), <- trimStart_nil_iff.
  split; intros H.
  - apply (f_equal (@rev N)) in H. now rewrite rev_involutive in H.
  - now rewrite H.
Qed.

Lemma trim_nil_iff s : trim s = [] <-> forallb isWhiteSpace s = true.
Proof.
  unfold trim. rewrite trimEnd_nil_iff. split; intros H.
  - destruct (trimStart_split s) as [p [Hp Hw]].
    rewrite Hp, forallb_app, Hw. exact H.
  - now rewrite (trimStart_blank s H).
Qed.

Lemma replaceRuns_blank_iff b s :
  forallb isWhiteSpace (replaceRuns b s) = true <-> forallb isWhiteSpace s = true.
Proof.
  split; [|apply replaceRuns_blank].
  revert b. induction s as [|c r IH]; intros b; simpl; [easy|].
  destruct (isWhiteSpace c) eqn:Hc; simpl.
  - destruct b; simpl; apply IH.
  - now rewrite Hc.
Qed.

Lemma normalize_nil_iff s : normalize s = [] <-> forallb blank s = true.
Proof.
  unfold normalize, replaceWhitespace.
  now rewrite trim_nil_iff, replaceRuns_blank_iff, removeControl_blank_iff.
Qed.

Lemma slice0_nil_iff s m : (0 < m)%Z -> slice0 s m = [] <-> s = [].
Proof.
  intros Hm. unfold slice0.
  destruct (m <? 0)%Z eqn:E; [apply Z.ltb_lt in E; lia|].
  destruct s as [|c r]; [now destruct (Z.to_nat _)|].
  split; [|discriminate]. simpl length.
  destruct (Z.to_nat (Z.min m (Z.of_nat (S (length r))))) eqn:En; [lia|discriminate].
Qed.

Lemma sanitizeText_nil_iff s m :
  (0 < m)%Z -> sanitizeText s m = [] <-> forallb blank s = true.
Proof.
  intros Hm. unfold sanitizeText. now rewrite slice0_nil_iff, normalize_nil_iff.
Qed.

Lemma sanitizeText_blank s m : forallb blank s = true -> sanitizeText s m = [].
Proof.
  intros H. unfold sanitizeText. apply normalize_nil_iff in H. rewrite H.
  unfold slice0. now destruct (Z.to_nat _).
Qed.

Lemma app_tail_neq (a a' t : jsstring) (x y : N) :
  x <> y -> a ++ x :: t <> a' ++ y :: t.
Proof.
  intros Hxy H.
  change (a ++ [x] ++ t = a' ++ [y] ++ t) in H.
  rewrite !app_assoc in H. apply app_inv_tail in H.
  apply app_inj_tail in H as [_ H]. contradiction.
Qed.

(** The two messages of the validator differ for every label: they end
    differently. *)
Lemma requiredError_neq_formatError lbl lbl' :
  requiredError lbl <> formatError lbl'.
Proof.
  intros H. apply (f_equal message) in H.
  unfold requiredError, formatError, newClientError in H. cbn [message] in H.
  revert H.
  assert (E1 : lit "El campo " ++ lbl ++ lit " es obligatorio."
               = (lit "El campo " ++ lbl ++ lit " es obligator") ++ 105%N :: lit "o.")
    by (rewrite <- !app_assoc; reflexivity).
  assert (E2 : lbl' ++ lit " tiene un formato inv" ++ [0xE1%N] ++ lit "lido."
               = (lbl' ++ lit " tiene un formato inv" ++ [0xE1%N] ++ lit "li")
                 ++ 100%N :: lit "o.")
    by (rewrite <- !app_assoc; reflexivity).
  rewrite E1, E2. now apply app_tail_neq.
Qed.

Lemma truthy_false_iff s : truthy s = false <-> s = [].
Proof. destruct s; simpl; split; congruence. Qed.

(** C5. [parseField] throws the "required" error exactly when the value is
    absent, or is the empty string, or is sanitized to the empty string;
    under a positive maximum length the last case is the input made of
    whitespace and control characters only; and whitespace-only input gets
    the very error a missing value gets. *)
Theorem parseField_required formData key options :
  (parseField formData key options
     = Throw (ThrownClientError (requiredError (fieldLabel key options)))
   <-> (get formData key = None
        \/ get formData key = Some (FormString [])
        \/ exists value, get formData key = Some value /\
             sanitizeText (toString value) (default 180%Z (maxLength options)) = []))
  /\ ((0 < default 180%Z (maxLength options))%Z ->
      forall s, sanitizeText s (default 180%Z (maxLength options)) = []
                <-> forallb blank s = true)
  /\ (forall formData' s,
        get formData key = None ->
        get formData' key = Some (FormString s) ->
        forallb blank s = true ->
        parseField formData' key options = parseField formData key options).
Proof.
  split; [|split].
  - unfold parseField. destruct (get formData key) as [value|] eqn:G.
    + destruct (truthyValue value) eqn:Tv; simpl.
      * destruct (truthy (sanitizeText _ _)) eqn:Ts; simpl.
        -- assert (Hne : sanitizeText (toString value)
                           (default 180%Z (maxLength options)) <> []).
           { intros E. rewrite E in Ts. discriminate. }
           split.
           ++ destruct (pattern options) as [p|]; [destruct (p _)|]; simpl;
                intros H; try discriminate.
              exfalso.
              apply (requiredError_neq_formatError (fieldLabel key options)
                       (fieldLabel key options)).
              congruence.
           ++ intros [H|[H|[v' [H E]]]]; try discriminate.
              ** injection H as ->. discriminate.
              ** injection H as ->. contradiction.
        -- apply truthy_false_iff in Ts. split; [|reflexivity].
           intros _. right. right. now exists value.
      * split; [|reflexivity]. intros _. right. left.
        destruct value; simpl in Tv; [|discriminate].
        apply truthy_false_iff in Tv. now subst.
    + split; [now left|reflexivity].
  - intros Hm s. now apply sanitizeText_nil_iff.
  - intros formData' s G G' Hs. unfold parseField. rewrite G, G'.
    destruct (truthyValue (FormString s)); simpl; [|reflexivity].
    now rewrite (sanitizeText_blank s _ Hs).
Qed.

Lemma parseField_required_witness :
  (0 < default 180%Z (maxLength (mkOptions (Some 100%Z) None None)))%Z /\
  (sanitizeText [32; 9; 0xA0; 10]%N
     (default 180%Z (maxLength (mkOptions (Some 100%Z) None None))) = []
   <-> forallb blank [32; 9; 0xA0; 10]%N = true) /\
  parseField [(lit "municipio", FormString [32; 9; 0xA0; 10]%N)] (lit "municipio")
    (mkOptions (Some 100%Z) None None)
  = parseField [] (lit "municipio") (mkOptions (Some 100%Z) None None).
Proof.
  destruct (parseField_required [] (lit "municipio") (mkOptions (Some 100%Z) None None))
    as [_ [H2 H3]].
  split; [simpl; lia|]. split.
  - refine (H2 _ _). simpl. lia.
  - apply (H3 _ [32; 9; 0xA0; 10]%N); reflexivity.
Defined.

(** What a successful [parseField] says about its result. *)
Lemma parseField_Return formData key options v :
  parseField formData key options = Return v ->
  exists value,
    get formData key = Some value /\
    v = sanitizeText (toString value) (default 180%Z (maxLength options)) /\
    truthy v = true /\
    (forall p, pattern options = Some p -> p v = true).
Proof.
  unfold parseField. destruct (get formData key) as [value|]; [|discriminate].
  destruct (truthyValue value); simpl; [|discriminate].
  destruct (truthy (sanitizeText _ _)) eqn:T; simpl; [|discriminate].
  destruct (pattern options) as [p|] eqn:P.
  - destruct (p _) eqn:Pv; simpl; [|discriminate].
    intros [= <-]. exists value. repeat split; auto.
    intros p' [= <-]. exact Pv.
  - intros [= <-]. exists value. repeat split; auto. discriminate.
Qed.

(** C8, refuted as stated: the grade rule accepts a value cut at a space by
    the truncation to 15 characters, and validating that value again gives
    a shorter one. *)
Lemma parseField_idempotent_counterexample :
  ~ (forall formData key options v,
       parseField formData key options = Return v ->
       parseField [(key, FormString v)] key options = Return v).
Proof.
  intros H.
  specialize (H [(lit "grade", FormString (lit "Grado Undecimo A Jornada"))]
                (lit "grade")
                (mkOptions (Some 15%Z) (Some (test gradePattern))
                   (Some (lit "grado a cursar")))
                (lit "Grado Undecimo ") eq_refl).
  vm_compute in H. discriminate H.
Qed.

(** C8, amended. Under a rule whose maximum length is not negative, a value
    that [parseField] returned is returned unchanged when validated again
    exactly when it does not end with whitespace; a value that the
    truncation cut just after a space is not a fixed point. *)
Theorem parseField_revalidate formData formData' key options v :
  (0 <= default 180%Z (maxLength options))%Z ->
  parseField formData key options = Return v ->
  get formData' key = Some (FormString v) ->
  (parseField formData' key options = Return v <-> lastNotSpace v = true).
Proof.
  intros Hm Hv G'.
  apply parseField_Return in Hv as [value [G [Ev [Tv Pv]]]].
  assert (Hc : noControl v) by (rewrite Ev; apply noControl_sanitizeText).
  assert (Hs : singleSpaced v = true) by (rewrite Ev; apply singleSpaced_sanitizeText).
  assert (Hh : headNotSpace v = true) by (rewrite Ev; apply headNotSpace_sanitizeText).
  assert (Hl : (Z.of_nat (length v) <= default 180%Z (maxLength options))%Z)
    by (rewrite Ev; now apply slice0_length).
  assert (Es : sanitizeText v (default 180%Z (maxLength options))
               = slice0 (trimEnd v) (default 180%Z (maxLength options))).
  { unfold sanitizeText. now rewrite normalize_clean. }
  unfold parseField. rewrite G'. simpl truthyValue. rewrite Tv. simpl.
  rewrite Es. split.
  - intros H. apply trimEnd_fixed_iff.
    assert (E : slice0 (trimEnd v) (default 180%Z (maxLength options)) = v).
    { destruct (truthy (slice0 _ _)); simpl in H; [|discriminate].
      destruct (pattern options) as [p|]; [destruct (p _)|]; simpl in H;
        congruence. }
    destruct (slice0_split (trimEnd v) (default 180%Z (maxLength options))) as [q Hq].
    destruct (trimEnd_split v) as [q' [Hq' _]].
    rewrite E in Hq. rewrite Hq in Hq'.
    assert (q = [] /\ q' = []) as [-> ->].
    { apply (f_equal (@length N)) in Hq'. rewrite !length_app in Hq'.
      split; apply length_zero_iff_nil; lia. }
    now rewrite app_nil_r in Hq.
  - intros Hlast. rewrite (trimEnd_id v Hlast), (slice0_id v _ Hl), Tv. simpl.
    destruct (pattern options) as [p|] eqn:P; [|reflexivity].
    now rewrite (Pv p eq_refl).
Qed.

Lemma parseField_revalidate_witness :
  (0 <= default 180%Z (maxLength (mkOptions (Some 15%Z) (Some (test gradePattern))
                                     (Some (lit "grado a cursar")))))%Z /\
  parseField [(lit "grade", FormString (lit "  Grado   11 B "))] (lit "grade")
    (mkOptions (Some 15%Z) (Some (test gradePattern)) (Some (lit "grado a cursar")))
  = Return (lit "Grado 11 B") /\
  (parseField [(lit "grade", FormString (lit "Grado 11 B"))] (lit "grade")
     (mkOptions (Some 15%Z) (Some (test gradePattern)) (Some (lit "grado a cursar")))
   = Return (lit "Grado 11 B")
   <-> lastNotSpace (lit "Grado 11 B") = true).
Proof.
  split; [simpl; lia|]. split; [reflexivity|].
  apply (parseField_revalidate
           [(lit "grade", FormString (lit "  Grado   11 B "))]
           [(lit "grade", FormString (lit "Grado 11 B"))]).
  - simpl. lia.
  - reflexivity.
  - reflexivity.
Defined.

End Validator.

(** ** Service options *)

Section Services.

Implicit Types (l seen : list jsstring) (x : jsstring).

Lemma elem_of_uniqueFrom seen l x :
  x ∈ uniqueFrom seen l <-> x ∈ l /\ x ∉ seen.
Proof.
  revert seen. induction l as [|y r IH]; intros seen; simpl.
  - split; [intros H; inversion H|intros [H _]; inversion H].
  - case_bool_decide as Hy.
    + rewrite IH, elem_of_cons. split; [tauto|].
      intros [[->|H] Hn]; [contradiction|tauto].
    + rewrite !elem_of_cons, IH, elem_of_cons.
      destruct (decide (x = y)) as [->|Hne]; tauto.
Qed.

Lemma NoDup_uniqueFrom seen l : NoDup (uniqueFrom seen l).
Proof.
  revert seen. induction l as [|y r IH]; intros seen; simpl.
  - constructor.
  - case_bool_decide as Hy; [apply IH|].
    apply NoDup_cons. split; [|apply IH].
    rewrite elem_of_uniqueFrom, elem_of_cons. tauto.
Qed.

Lemma elem_of_sanitizedServices formData x :
  x ∈ sanitizedServices formData <->
  x <> [] /\
  exists value, value ∈ getAll formData (lit "service_options") /\
                x = sanitizeText (toString value) 10.
Proof.
  unfold sanitizedServices.
  rewrite list_elem_of_In, List.filter_In, <- list_elem_of_In, list_elem_of_fmap.
  split.
  - intros [[v [-> Hv]] Ht]. split; [now destruct (sanitizeText _ _)|eauto].
  - intros [Hne [v [Hv ->]]]. split; [eauto|].
    now destruct (sanitizeText _ _).
Qed.

(** C4. [parseServices] sanitizes every raw value to at most 10 characters,
    drops the empty results and the duplicates, and returns what is left
    exactly when it is not empty and lies within AM, PM and 1/2; otherwise
    it throws the one service error.  AM, AM, PM yields AM and PM; no value
    at all, or XX, yields the error. *)
Theorem parseServices_spec (formData : FormData) :
  exists unique : list jsstring,
    NoDup unique /\
    (forall x, x ∈ unique <->
       x <> [] /\
       exists value, value ∈ getAll formData (lit "service_options") /\
                     x = sanitizeText (toString value) 10) /\
    (forall x, x ∈ unique -> (Z.of_nat (length x) <= 10)%Z) /\
    (parseServices formData = Return unique <->
       unique <> [] /\ forall x, x ∈ unique -> x ∈ ALLOWED_SERVICES) /\
    (parseServices formData = Return unique \/
     parseServices formData = Throw (ThrownClientError servicesError)) /\
    status servicesError = 400%Z /\
    parseServices (servicesForm [lit "AM"; lit "AM"; lit "PM"])
      = Return [lit "AM"; lit "PM"] /\
    parseServices (servicesForm []) = Throw (ThrownClientError servicesError) /\
    parseServices (servicesForm [lit "XX"]) = Throw (ThrownClientError servicesError).
Proof.
  exists (uniqueFrom [] (sanitizedServices formData)).
  split; [apply NoDup_uniqueFrom|].
  split.
  { intros x. rewrite elem_of_uniqueFrom, elem_of_sanitizedServices.
    split; [tauto|]. intros H. split; [exact H|]. apply not_elem_of_nil. }
  split.
  { intros x Hx. apply elem_of_uniqueFrom in Hx as [Hx _].
    apply elem_of_sanitizedServices in Hx as [_ [v [_ ->]]].
    apply slice0_length. lia. }
  assert (Hinv : forall u : list jsstring,
            List.filter (fun s => negb (bool_decide (s ∈ ALLOWED_SERVICES))) u = []
            <-> forall x, x ∈ u -> x ∈ ALLOWED_SERVICES).
  { induction u as [|y r IH]; simpl.
    - split; [intros _ x Hx; inversion Hx|reflexivity].
    - case_bool_decide as Hy; simpl.
      + rewrite IH. split.
        * intros H x Hx. apply elem_of_cons in Hx as [->|Hx]; auto.
        * intros H x Hx. apply H. now apply elem_of_cons; right.
      + split; [discriminate|]. intros H. exfalso. apply Hy, H. now left. }
  unfold parseServices. fold (sanitizedServices formData).
  set (unique := uniqueFrom [] (sanitizedServices formData)) in *.
  specialize (Hinv unique).
  split; [|split].
  - destruct (List.filter _ unique) as [|i invalid] eqn:Ei.
    + destruct unique as [|u0 us] eqn:Eu; simpl.
      * split; [discriminate|]. intros [H _]. contradiction.
      * split; [|reflexivity]. intros _. split; [discriminate|].
        now apply Hinv.
    + simpl. split; [discriminate|]. intros [_ H].
      apply Hinv in H. discriminate.
  - destruct (_ || _); [now right|now left].
  - repeat split; reflexivity.
Qed.

End Services.

(** ** Client identification *)

Section ClientId.

Implicit Types (req : NextRequest) (f r : jsstring).

(** [firstSegment] is the text before the first comma. *)
Lemma firstSegment_split f :
(COMMA ∉ firstSegment f) /\
  (f = firstSegment f \/ exists rest, f = firstSegment f ++ COMMA :: rest).
Proof.
  induction f as [|c r [IH1 IH2]]; simpl.
  - split; [apply not_elem_of_nil|now left].
  - destruct (c =? COMMA)%N eqn:E.
    + apply N.eqb_eq in E. subst c.
      split; [apply not_elem_of_nil|right; now exists r].
    + apply N.eqb_neq in E. split.
      * rewrite elem_of_cons. intros [H|H]; [congruence|contradiction].
      * destruct IH2 as [IH2|[rest IH2]]; [left|right; exists rest];
          simpl; now f_equal.
Qed.

(** C7, refuted as stated: with a forwarded-for header whose first value is
    empty, the real-IP header is not used; the identifier is the sentinel. *)
Lemma getClientId_fallback_counterexample :
  ~ (forall req f,
       headers req !! lit "x-forwarded-for" = Some f ->
       trim (firstSegment f) = [] ->
       getClientId req = orDefault (headers req !! lit "x-real-ip") (lit "unknown")).
Proof.
  intros H.
  specialize (H (mkRequest
                   (<[lit "x-forwarded-for" := lit ",10.0.0.1"]>
                      {[lit "x-real-ip" := lit "203.0.113.7"]})
                   None)
                (lit ",10.0.0.1") eq_refl eq_refl).
  vm_compute in H. discriminate H.
Qed.

(** C7, amended. When the forwarded-for header is present and not empty, the
    identifier is its first comma-separated value, trimmed, if that is not
    empty, and the sentinel "unknown" if it is: the real-IP header is not
    read then.  When the forwarded-for header is absent or empty, the
    identifier is the real-IP header's value if present and not empty, and
    the sentinel otherwise. *)
Theorem getClientId_cases req :
  (forall f, (COMMA ∉ firstSegment f) /\
     (f = firstSegment f \/ exists rest, f = firstSegment f ++ COMMA :: rest)) /\
  (forall f, headers req !! lit "x-forwarded-for" = Some f -> f <> [] ->
     (trim (firstSegment f) <> [] -> getClientId req = trim (firstSegment f)) /\
     (trim (firstSegment f) = [] -> getClientId req = lit "unknown")) /\
  (headers req !! lit "x-forwarded-for" = None \/
   headers req !! lit "x-forwarded-for" = Some [] ->
     (forall r, headers req !! lit "x-real-ip" = Some r -> r <> [] ->
        getClientId req = r) /\
     (headers req !! lit "x-real-ip" = None \/
      headers req !! lit "x-real-ip" = Some [] ->
        getClientId req = lit "unknown")).
Proof.
  split; [apply firstSegment_split|].
  unfold getClientId. split.
  - intros f -> Hf. destruct f as [|c f']; [contradiction|]. simpl truthy. cbv iota.
    split; intros H; unfold orDefault.
    + destruct (trim _); [contradiction|reflexivity].
    + now rewrite H.
  - intros Hx.
    assert (E : match headers req !! lit "x-forwarded-for" with
                | Some f =>
                    if truthy f
                    then orDefault (Some (trim (firstSegment f))) (lit "unknown")
                    else orDefault (headers req !! lit "x-real-ip") (lit "unknown")
                | None => orDefault (headers req !! lit "x-real-ip") (lit "unknown")
                end = orDefault (headers req !! lit "x-real-ip") (lit "unknown")).
    { destruct Hx as [-> | ->]; reflexivity. }
    rewrite E. split.
    + intros r -> Hr. destruct r; [contradiction|reflexivity].
    + intros [-> | ->]; reflexivity.
Qed.

Lemma getClientId_cases_witness :
  headers (mkRequest {[lit "x-forwarded-for" := lit "198.51.100.4 , 10.0.0.1"]} None)
    !! lit "x-forwarded-for" = Some (lit "198.51.100.4 , 10.0.0.1") /\
  lit "198.51.100.4 , 10.0.0.1" <> [] /\
  trim (firstSegment (lit "198.51.100.4 , 10.0.0.1")) <> [] /\
  getClientId (mkRequest {[lit "x-forwarded-for" := lit "198.51.100.4 , 10.0.0.1"]} None)
    = lit "198.51.100.4".
Proof.
  split; [reflexivity|]. split; [discriminate|]. split; [discriminate|].
  refine (proj1 (proj1 (proj2 (getClientId_cases
           (mkRequest {[lit "x-forwarded-for" := lit "198.51.100.4 , 10.0.0.1"]} None)))
           (lit "198.51.100.4 , 10.0.0.1") eq_refl _) _); discriminate.
Defined.

End ClientId.

(** ** Rate limiter *)

Section RateLimiter.

Local Open Scope Z_scope.

Implicit Types (store : gmap jsstring RateLimitEntry) (clientId : jsstring).



Lemma enforce_absent now clientId store :
  store !! clientId = None ->
  enforceRateLimit now clientId store =
    (Return tt, <[clientId := mkEntry 1 (now + RATE_LIMIT_WINDOW_MS)]> store).
Proof. unfold enforceRateLimit. now intros ->. Qed.

Lemma enforce_expired now clientId store entry :
  store !! clientId = Some entry -> expiresAt entry <= now ->
  enforceRateLimit now clientId store =
    (Return tt, <[clientId := mkEntry 1 (now + RATE_LIMIT_WINDOW_MS)]> store).
Proof.
  unfold enforceRateLimit. intros -> H.
  destruct (expiresAt entry >? now) eqn:E; [|reflexivity].
  apply Z.gtb_lt in E. lia.
Qed.

Lemma enforce_within now clientId store entry :
  store !! clientId = Some entry -> now < expiresAt entry ->
  hits entry < RATE_LIMIT_MAX_REQUESTS ->
  enforceRateLimit now clientId store =
    (Return tt, <[clientId := mkEntry (hits entry + 1) (expiresAt entry)]> store).
Proof.
  unfold enforceRateLimit. intros -> H1 H2.
  destruct (expiresAt entry >? now) eqn:E.
  - destruct (hits entry >=? RATE_LIMIT_MAX_REQUESTS) eqn:F; [|reflexivity].
    apply Z.geb_le in F. lia.
  - rewrite Z.gtb_ltb in E. apply Z.ltb_ge in E. lia.
Qed.

Lemma enforce_full now clientId store entry :
  store !! clientId = Some entry -> now < expiresAt entry ->
  RATE_LIMIT_MAX_REQUESTS <= hits entry ->
  enforceRateLimit now clientId store =
    (Throw (ThrownClientError tooManyRequests), store).
Proof.
  unfold enforceRateLimit. intros -> H1 H2.
  destruct (expiresAt entry >? now) eqn:E.
  - destruct (hits entry >=? RATE_LIMIT_MAX_REQUESTS) eqn:F; [reflexivity|].
    rewrite Z.geb_leb in F. apply Z.leb_gt in F. lia.
  - rewrite Z.gtb_ltb in E. apply Z.ltb_ge in E. lia.
Qed.

(** A call of another client leaves the entry of this one alone. *)
Lemma enforce_other now clientId other store :
  other <> clientId ->
  (enforceRateLimit now other store).2 !! clientId = store !! clientId.
Proof.
  intros Hne. unfold enforceRateLimit.
  destruct (store !! other) as [entry|]; simpl.
  - destruct (_ >? _); [destruct (_ >=? _)|]; simpl;
      try reflexivity; now apply lookup_insert_ne.
  - now apply lookup_insert_ne.
Qed.

(** The completion and the new entry depend on the entry of the client
    only. *)
Lemma enforce_local now clientId store store' :
  store !! clientId = store' !! clientId ->
  (enforceRateLimit now clientId store).1 = (enforceRateLimit now clientId store').1 /\
  (enforceRateLimit now clientId store).2 !! clientId
    = (enforceRateLimit now clientId store').2 !! clientId.
Proof.
  intros H. unfold enforceRateLimit. rewrite <- H.
  destruct (store !! clientId) as [entry|] eqn:E; simpl.
  - destruct (_ >? _); [destruct (_ >=? _)|]; simpl;
      rewrite ?lookup_insert_eq; split; congruence.
  - now rewrite !lookup_insert_eq.
Qed.

(** Interleaved calls, seen from one client, are the calls of that client
    alone. *)
Lemma enforceAll_project clientId calls store store' :
  store !! clientId = store' !! clientId ->
  completionsOf clientId calls (enforceAll calls store).1
    = (enforceSeq clientId (callsOf clientId calls) store').1 /\
  (enforceAll calls store).2 !! clientId
    = (enforceSeq clientId (callsOf clientId calls) store').2 !! clientId.
Proof.
  revert store store'. induction calls as [|[k now] calls IH]; intros store store' H.
  - simpl. auto.
  - simpl. unfold callsOf. simpl.
    destruct (enforceRateLimit now k store) as [c st] eqn:E1.
    destruct (enforceAll calls st) as [cs st2] eqn:E2.
    case_bool_decide as Hk; simpl.
    + subst k.
      destruct (enforceRateLimit now clientId store') as [c' st'] eqn:E1'.
      fold (callsOf clientId calls).
      destruct (enforceSeq clientId (callsOf clientId calls) st') as [cs' st2'] eqn:E2'.
      simpl.
      destruct (enforce_local now clientId store store' H) as [Hc Hs].
      rewrite E1, E1' in Hc, Hs. simpl in Hc, Hs. subst c'.
      destruct (IH st st' Hs) as [IH1 IH2].
      rewrite E2, E2' in IH1, IH2. simpl in IH1, IH2.
      split; [now f_equal|exact IH2].
    + fold (callsOf clientId calls).
      assert (Hs : st !! clientId = store' !! clientId).
      { rewrite <- H. replace st with (enforceRateLimit now k store).2 by now rewrite E1.
        now apply enforce_other. }
      destruct (IH st store' Hs) as [IH1 IH2].
      rewrite E2 in IH1, IH2. simpl in IH1, IH2. auto.
Qed.

(** Within the window and below the maximum, every call is admitted and
    counted. *)
Lemma enforceSeq_within clientId times store entry :
  store !! clientId = Some entry ->
  Forall (fun t => t < expiresAt entry) times ->
  hits entry + Z.of_nat (length times) <= RATE_LIMIT_MAX_REQUESTS ->
  (enforceSeq clientId times store).1 = repeat (Return tt) (length times) /\
  (enforceSeq clientId times store).2 !! clientId
    = Some (mkEntry (hits entry + Z.of_nat (length times)) (expiresAt entry)).
Proof.
  revert store entry. induction times as [|t ts IH]; intros store entry Hl Ht Hh.
  - simpl. rewrite Z.add_0_r. split; [reflexivity|]. now destruct entry.
  - simpl length in *. apply Forall_cons in Ht as [Ht Hts]. simpl.
    rewrite (enforce_within t clientId store entry Hl Ht) by lia.
    destruct (enforceSeq clientId ts _) as [cs st'] eqn:E. simpl.
    destruct (IH (<[clientId := mkEntry (hits entry + 1) (expiresAt entry)]> store)
                 (mkEntry (hits entry + 1) (expiresAt entry))) as [IH1 IH2].
    + apply lookup_insert_eq.
    + exact Hts.
    + simpl. lia.
    + rewrite E in IH1, IH2. simpl in IH1, IH2. split; [now f_equal|].
      rewrite IH2. f_equal. f_equal. lia.
Qed.

(** C1. For a client without an entry, among calls interleaved with those
    of any other clients: its first 10 calls, the later ones before the
    expiry set by the first, are all admitted; an 11th call before that
    expiry throws the error of status 429; and a call at or after the expiry
    of an entry makes it an entry of 1 hit with a new expiry and is
    admitted. *)
Theorem rate_limit_window clientId store calls t0 later :
  store !! clientId = None ->
  callsOf clientId calls = t0 :: later ->
  length later = 9%nat ->
  Forall (fun t => t < t0 + RATE_LIMIT_WINDOW_MS) later ->
  completionsOf clientId calls (enforceAll calls store).1 = repeat (Return tt) 10 /\
  (enforceAll calls store).2 !! clientId
    = Some (mkEntry 10 (t0 + RATE_LIMIT_WINDOW_MS)) /\
  (forall t11, t11 < t0 + RATE_LIMIT_WINDOW_MS ->
     enforceRateLimit t11 clientId (enforceAll calls store).2
       = (Throw (ThrownClientError tooManyRequests), (enforceAll calls store).2)) /\
  status tooManyRequests = 429 /\
  RATE_LIMIT_MAX_REQUESTS = 10 /\ RATE_LIMIT_WINDOW_MS = 300000 /\
  (forall st entry now,
     st !! clientId = Some entry -> expiresAt entry <= now ->
     enforceRateLimit now clientId st
       = (Return tt, <[clientId := mkEntry 1 (now + RATE_LIMIT_WINDOW_MS)]> st)).
Proof.
  intros Hfresh Hcalls Hlen Hlater.
  destruct (enforceAll_project clientId calls store store eq_refl) as [P1 P2].
  rewrite Hcalls in P1, P2. simpl in P1, P2.
  rewrite (enforce_absent t0 clientId store Hfresh) in P1, P2.
  destruct (enforceSeq clientId later _) as [cs st'] eqn:E. simpl in P1, P2.
  destruct (enforceSeq_within clientId later
              (<[clientId := mkEntry 1 (t0 + RATE_LIMIT_WINDOW_MS)]> store)
              (mkEntry 1 (t0 + RATE_LIMIT_WINDOW_MS))) as [S1 S2].
  { apply lookup_insert_eq. }
  { exact Hlater. }
  { simpl. rewrite Hlen. unfold RATE_LIMIT_MAX_REQUESTS. lia. }
  rewrite E in S1, S2. simpl in S1, S2. rewrite Hlen in S1, S2.
  assert (Hentry : (enforceAll calls store).2 !! clientId
                   = Some (mkEntry 10 (t0 + RATE_LIMIT_WINDOW_MS))).
  { rewrite P2, S2. reflexivity. }
  split; [rewrite P1, S1; reflexivity|].
  split; [exact Hentry|].
  split.
  { intros t11 H11. apply (enforce_full _ _ _ _ Hentry); simpl; [exact H11|].
    unfold RATE_LIMIT_MAX_REQUESTS. lia. }
  repeat split. intros st entry now. apply enforce_expired.
Qed.

Lemma rate_limit_window_witness :
  (∅ : gmap jsstring RateLimitEntry) !! lit "198.51.100.4" = None /\
  callsOf (lit "198.51.100.4") sampleCalls
    = 1000 :: [1002; 1003; 2000; 2002; 90000; 90001; 200000; 300000; 300999] /\
  (300999 < 1000 + RATE_LIMIT_WINDOW_MS) /\
  enforceRateLimit 300999 (lit "198.51.100.4") (enforceAll sampleCalls ∅).2
  = (Throw (ThrownClientError tooManyRequests), (enforceAll sampleCalls ∅).2).
Proof.
  split; [reflexivity|]. split; [reflexivity|]. split; [reflexivity|].
  refine (proj1 (proj2 (proj2
    (rate_limit_window (lit "198.51.100.4") ∅ sampleCalls 1000
       [1002; 1003; 2000; 2002; 90000; 90001; 200000; 300000; 300999]
       eq_refl eq_refl eq_refl _))) 300999 _).
  - repeat constructor.
  - reflexivity.
Defined.

(** The only throw of [enforceRateLimit], and what it leaves behind. *)
Lemma enforce_Throw now clientId store e store' :
  enforceRateLimit now clientId store = (Throw e, store') ->
  store' = store /\
  e = ThrownClientError tooManyRequests /\
  exists entry, store !! clientId = Some entry /\
                now < expiresAt entry /\
                RATE_LIMIT_MAX_REQUESTS <= hits entry.
Proof.
  unfold enforceRateLimit.
  destruct (store !! clientId) as [entry|]; [|discriminate].
  destruct (expiresAt entry >? now) eqn:E; [|discriminate].
  destruct (hits entry >=? RATE_LIMIT_MAX_REQUESTS) eqn:F; [|discriminate].
  intros [= <- <-]. apply Z.gtb_lt in E. apply Z.geb_le in F.
  repeat split. exists entry. auto.
Qed.

(** C10. A call that is rejected leaves the store as it was: no hit is
    counted and the expiry stays; and a call is rejected exactly when the
    entry of the client is within its window with its hits at the maximum,
    always with the error of status 429. *)
Theorem rate_limit_reject_unchanged now clientId store :
  (forall e store',
     enforceRateLimit now clientId store = (Throw e, store') ->
     store' = store /\
     e = ThrownClientError tooManyRequests /\
     exists entry, store !! clientId = Some entry /\
                   now < expiresAt entry /\
                   RATE_LIMIT_MAX_REQUESTS <= hits entry) /\
  (forall entry,
     store !! clientId = Some entry -> now < expiresAt entry ->
     RATE_LIMIT_MAX_REQUESTS <= hits entry ->
     enforceRateLimit now clientId store
       = (Throw (ThrownClientError tooManyRequests), store)) /\
  status tooManyRequests = 429.
Proof.
  split; [|split; [apply enforce_full|reflexivity]].
  intros e store'. apply enforce_Throw.
Qed.

Lemma rate_limit_reject_unchanged_witness :
  enforceRateLimit 5000 (lit "unknown") {[lit "unknown" := mkEntry 10 5001]}
    = (Throw (ThrownClientError tooManyRequests), {[lit "unknown" := mkEntry 10 5001]}).
Proof.
  refine (proj1 (proj2 (rate_limit_reject_unchanged 5000 (lit "unknown")
            {[lit "unknown" := mkEntry 10 5001]})) (mkEntry 10 5001) _ _ _).
  - reflexivity.
  - simpl. lia.
  - simpl. unfold RATE_LIMIT_MAX_REQUESTS. lia.
Defined.

End RateLimiter.

(** ** The handler *)

Section Gateway.

Implicit Types (env : Env) (req : NextRequest) (w : World) (formData : FormData).

(** [POST] computes what [outcome] describes. *)
Lemma POST_outcome env req w : POST env req w = outcome env req w.
Proof.
  unfold POST, outcome, tryCatch, enforceRateLimitM, formDataOf.
  unfold mbind, M_bind, mret, M_ret, throw, liftC.
  destruct (enforceRateLimit (now env) (getClientId req) (rateLimitStore w))
    as [[[]|e] st]; [|reflexivity].
  cbn [rateLimitStore events].
  destruct (body req) as [formData|]; [|reflexivity].
  cbn [parseFields mandatoryFields].
  repeat match goal with
         | |- context [parseField formData ?k ?o] =>
             destruct (parseField formData k o); [|reflexivity]
         end.
  destruct (parseServices formData) as [services|e]; [|reflexivity].
  unfold supabaseInsert, consoleError, emit, mbind, M_bind, mret, M_ret.
  cbn [rateLimitStore events].
  unfold rowOf. cbn [nth].
  destruct (insertOutcome env _) as [d|]; [|reflexivity].
  unfold caught. cbn [rateLimitStore events]. rewrite <- !app_assoc. reflexivity.
Qed.

Lemma parseFields_Throw formData fields e :
  parseFields formData fields = Throw e <->
  exists before key options after,
    fields = before ++ (key, options) :: after /\
    Forall (passes formData) before /\
    parseField formData key options = Throw e.
Proof.
  induction fields as [|[k o] rest IH]; simpl.
  - split; [discriminate|]. intros (before & ? & ? & ? & H & _).
    now destruct before.
  - destruct (parseField formData k o) as [v|e0] eqn:Ek.
    + destruct (parseFields formData rest) as [vs|e1] eqn:Er.
      * split; [discriminate|].
        intros (before & key & options & after & H & Hb & Hk).
        destruct before as [|b before]; simpl in H; inversion H; subst; clear H.
        -- congruence.
        -- apply Forall_cons in Hb as [_ Hb].
           assert (X : @Return (list jsstring) vs = Throw e); [|discriminate X].
           apply IH. exists before, key, options, after. auto.
      * split.
        -- intros [= <-].
           destruct (proj1 IH eq_refl) as (before & key & options & after & H & Hb & Hk).
           exists ((k, o) :: before), key, options, after.
           split; [simpl; now f_equal|]. split; [|exact Hk].
           apply Forall_cons. split; [now exists v|exact Hb].
        -- intros (before & key & options & after & H & Hb & Hk).
           destruct before as [|b before]; simpl in H; inversion H; subst; clear H.
           ++ congruence.
           ++ apply Forall_cons in Hb as [_ Hb]. apply IH.
              exists before, key, options, after. auto.
    + split.
      * intros [= <-]. exists [], k, o, rest. repeat split; [constructor|exact Ek].
      * intros (before & key & options & after & H & Hb & Hk).
        destruct before as [|b before]; simpl in H; inversion H; subst; clear H.
        -- congruence.
        -- apply Forall_cons in Hb as [[v Hv] _]. simpl in Hv. congruence.
Qed.

Lemma parseFields_Return_iff formData fields :
  (exists vs, parseFields formData fields = Return vs) <->
  Forall (passes formData) fields.
Proof.
  induction fields as [|[k o] rest IH]; simpl.
  - split; [constructor|now exists []].
  - rewrite Forall_cons, <- IH. unfold passes at 1. simpl.
    destruct (parseField formData k o) as [v|e0].
    + destruct (parseFields formData rest) as [vs|e1].
      * split; eauto.
      * split; [intros [? H]; discriminate|intros [_ [? H]]; discriminate].
    + split; [intros [? H]; discriminate|intros [[? H] _]; discriminate].
Qed.

(** Whatever [parseField] throws is a [ClientError] of status 400. *)
Lemma parseField_Throw formData key options e :
  parseField formData key options = Throw e ->
  exists ce, e = ThrownClientError ce /\ status ce = 400%Z.
Proof.
  unfold parseField.
  destruct (get formData key) as [value|]; [|intros [= <-]; eauto].
  destruct (truthyValue value); simpl; [|intros [= <-]; eauto].
  destruct (truthy _); simpl; [|intros [= <-]; eauto].
  destruct (pattern options) as [p|]; [destruct (p _)|]; simpl;
    try discriminate.
  intros [= <-]. eauto.
Qed.

Lemma inserts_app evs evs' : inserts (evs ++ evs') = inserts evs ++ inserts evs'.
Proof. apply omap_app. Qed.

Lemma inserts_caught err st evs : inserts (events (caught err st evs).2) = inserts evs.
Proof. unfold caught. simpl. rewrite inserts_app. simpl. apply app_nil_r. Qed.

(** C3. When a mandatory field fails validation, the first one in the order
    of the fields to do so, the handler sends nothing to the store, and,
    the rate limiter having admitted the request, answers with the error of
    that field and status 400 (a request the rate limiter rejects is
    answered with status 429 before any field is looked at).  A request
    sends at most one insert, and it sends one exactly when it is admitted
    and every field and the service options pass validation. *)
Theorem POST_validation env req w :
  (forall formData before key options after e,
     body req = Some formData ->
     mandatoryFields = before ++ (key, options) :: after ->
     Forall (passes formData) before ->
     parseField formData key options = Throw e ->
     inserts (events (POST env req w).2) = inserts (events w) /\
     (admits env req w ->
        exists ce, e = ThrownClientError ce /\ status ce = 400%Z /\
          (POST env req w).1 = Return (errorResponse (message ce) 400)) /\
     (~ admits env req w ->
        (POST env req w).1 = Return (errorResponse (message tooManyRequests) 429))) /\
  (exists rows,
     inserts (events (POST env req w).2) = inserts (events w) ++ rows /\
     length rows <= 1 /\
     (rows <> [] <->
        admits env req w /\
        exists formData,
          body req = Some formData /\
          Forall (passes formData) mandatoryFields /\
          exists services, parseServices formData = Return services)).
Proof.
  rewrite POST_outcome. unfold outcome, admits. split.
  - intros formData before key options after e Hbody Hsplit Hbefore Hfail.
    assert (Hthrow : parseFields formData mandatoryFields = Throw e).
    { apply parseFields_Throw. now exists before, key, options, after. }
    destruct (parseField_Throw _ _ _ _ Hfail) as [ce [-> Hst]].
    destruct (enforceRateLimit _ _ _) as [[[]|e0] st] eqn:Erl.
    + rewrite Hbody, Hthrow. split; [apply inserts_caught|]. split.
      * intros _. exists ce. repeat split; [exact Hst|].
        unfold caught. simpl. now rewrite Hst.
      * intros Hn. now contradiction Hn.
    + split; [apply inserts_caught|]. split; [simpl; discriminate|].
      intros _. apply enforce_Throw in Erl as (_ & -> & _). reflexivity.
  - destruct (enforceRateLimit _ _ _) as [[[]|e0] st]; simpl fst.
    + destruct (body req) as [formData|].
      * destruct (parseFields formData mandatoryFields) as [values|e] eqn:Ef.
        -- destruct (parseServices formData) as [services|e] eqn:Es.
           ++ exists [rowOf values services]. split; [|split; [simpl; lia|]].
              ** cbv zeta. destruct (insertOutcome env _).
                 --- rewrite inserts_caught, inserts_app. reflexivity.
                 --- simpl. rewrite inserts_app. reflexivity.
              ** split; [|discriminate]. intros _. split; [reflexivity|].
                 exists formData. split; [reflexivity|]. split; [|eauto].
                 apply parseFields_Return_iff. eauto.
           ++ exists []. rewrite inserts_caught, app_nil_r.
              split; [reflexivity|]. split; [simpl; lia|].
              split; [congruence|].
              intros [_ (fd & [= <-] & _ & sv & Hsv)]. congruence.
        -- exists []. rewrite inserts_caught, app_nil_r.
           split; [reflexivity|]. split; [simpl; lia|].
           split; [congruence|].
           intros [_ (fd & [= <-] & Hall & _)].
           apply parseFields_Return_iff in Hall as [vs Hvs]. congruence.
      * exists []. rewrite inserts_caught, app_nil_r.
        split; [reflexivity|]. split; [simpl; lia|].
        split; [congruence|]. intros [_ (fd & Hfd & _)]. discriminate.
    + exists []. rewrite inserts_caught, app_nil_r.
      split; [reflexivity|]. split; [simpl; lia|].
      split; [congruence|]. intros [H _]. discriminate.
Qed.

Lemma POST_validation_witness :
  body (sampleRequest (sampleFormWithout "father_email"))
    = Some (sampleFormWithout "father_email") /\
  mandatoryFields
    = take 10 mandatoryFields
      ++ (lit "father_email",
          mkOptions (Some 120%Z) emailTest (Some (lit "email del padre")))
      :: drop 11 mandatoryFields /\
  Forall (passes (sampleFormWithout "father_email")) (take 10 mandatoryFields) /\
  parseField (sampleFormWithout "father_email") (lit "father_email")
    (mkOptions (Some 120%Z) emailTest (Some (lit "email del padre")))
    = Throw (ThrownClientError (requiredError (lit "email del padre"))) /\
  admits (mkEnv 1000 (fun _ => None))
    (sampleRequest (sampleFormWithout "father_email")) (mkWorld ∅ []) /\
  inserts (events (POST (mkEnv 1000 (fun _ => None))
                     (sampleRequest (sampleFormWithout "father_email"))
                     (mkWorld ∅ [])).2) = [] /\
  (POST (mkEnv 1000 (fun _ => None))
     (sampleRequest (sampleFormWithout "father_email")) (mkWorld ∅ [])).1
    = Return (errorResponse (lit "El campo email del padre es obligatorio.") 400).
Proof.
  assert (Hall : Forall (passes (sampleFormWithout "father_email"))
                   (take 10 mandatoryFields)).
  { repeat constructor; eexists; vm_compute; reflexivity. }
  assert (Hadm : admits (mkEnv 1000 (fun _ => None))
                   (sampleRequest (sampleFormWithout "father_email")) (mkWorld ∅ [])).
  { reflexivity. }
  destruct (proj1 (POST_validation (mkEnv 1000 (fun _ => None))
                     (sampleRequest (sampleFormWithout "father_email"))
                     (mkWorld ∅ []))
              (sampleFormWithout "father_email") (take 10 mandatoryFields)
              (lit "father_email")
              (mkOptions (Some 120%Z) emailTest (Some (lit "email del padre")))
              (drop 11 mandatoryFields)
              (ThrownClientError (requiredError (lit "email del padre")))
              eq_refl eq_refl Hall eq_refl) as [Hins Hresp].
  destruct (proj1 Hresp Hadm) as [ce [Hce [_ Hr]]].
  injection Hce as <-.
  split; [reflexivity|]. split; [reflexivity|]. split; [exact Hall|].
  split; [reflexivity|]. split; [exact Hadm|]. split; [exact Hins|exact Hr].
Defined.

(** C9. For an admitted request whose fields and service options all pass
    validation, one row is sent to the store.  If the store reports an
    error, the answer has status 500 and carries the fixed message, the
    same whatever the error holds, and the error is written to the error
    console.  If the store reports none, the answer has status 200 and
    success set. *)
Theorem POST_store_outcome env req w formData :
  admits env req w ->
  body req = Some formData ->
  Forall (passes formData) mandatoryFields ->
  (exists services, parseServices formData = Return services) ->
  exists row,
    inserts (events (POST env req w).2) = inserts (events w) ++ [row] /\
    (forall d, insertOutcome env row = Some d ->
       (POST env req w).1 = Return (errorResponse genericFailure 500) /\
       ConsoleError (lit "SUPABASE INSERT ERROR:") (LoggedStoreError d)
         ∈ events (POST env req w).2 /\
       (forall env' d', now env' = now env -> insertOutcome env' row = Some d' ->
          (POST env' req w).1 = (POST env req w).1)) /\
    (insertOutcome env row = None ->
       (POST env req w).1 = Return successResponse) /\
    response_status successResponse = 200%Z /\
    success (json successResponse) = true.
Proof.
  intros Hadm Hbody Hall [services Hserv].
  apply parseFields_Return_iff in Hall as [values Hvalues].
  exists (rowOf values services).
  assert (Hrun : forall env', now env' = now env ->
            POST env' req w =
              match insertOutcome env' (rowOf values services) with
              | Some d =>
                  caught (ThrownError (lit "No se pudo guardar el formulario."))
                    (enforceRateLimit (now env) (getClientId req) (rateLimitStore w)).2
                    (events w ++ [StoreInsert (lit "submissions") (rowOf values services);
                                  ConsoleError (lit "SUPABASE INSERT ERROR:")
                                    (LoggedStoreError d)])
              | None =>
                  (Return successResponse,
                   mkWorld (enforceRateLimit (now env) (getClientId req)
                              (rateLimitStore w)).2
                     (events w ++ [StoreInsert (lit "submissions")
                                     (rowOf values services)]))
              end).
  { intros env' Hnow. rewrite POST_outcome. unfold outcome, admits in *.
    rewrite Hnow.
    destruct (enforceRateLimit _ _ _) as [c st]. simpl in Hadm. subst c.
    now rewrite Hbody, Hvalues, Hserv. }
  split; [|split; [|split; [|split; reflexivity]]].
  - rewrite (Hrun env eq_refl). destruct (insertOutcome env _).
    + rewrite inserts_caught, inserts_app. reflexivity.
    + simpl. rewrite inserts_app. reflexivity.
  - intros d Hd. split; [|split].
    + rewrite (Hrun env eq_refl), Hd. reflexivity.
    + rewrite (Hrun env eq_refl), Hd. unfold caught. simpl.
      rewrite !elem_of_app, !elem_of_cons. auto.
    + intros env' d' Hnow Hd'.
      rewrite (Hrun env' Hnow), (Hrun env eq_refl), Hd, Hd'. reflexivity.
  - intros Hnone. rewrite (Hrun env eq_refl), Hnone. reflexivity.
Qed.

Lemma POST_store_outcome_witness :
  admits (mkEnv 1000 (fun _ => Some (mkStoreError (lit "duplicate key value"))))
    (sampleRequest sampleForm) (mkWorld ∅ []) /\
  body (sampleRequest sampleForm) = Some sampleForm /\
  Forall (passes sampleForm) mandatoryFields /\
  (exists services, parseServices sampleForm = Return services) /\
  exists row,
    inserts (events (POST (mkEnv 1000
                             (fun _ => Some (mkStoreError (lit "duplicate key value"))))
                       (sampleRequest sampleForm) (mkWorld ∅ [])).2) = [] ++ [row] /\
    (POST (mkEnv 1000 (fun _ => Some (mkStoreError (lit "duplicate key value"))))
       (sampleRequest sampleForm) (mkWorld ∅ [])).1
      = Return (errorResponse genericFailure 500).
Proof.
  assert (Hall : Forall (passes sampleForm) mandatoryFields).
  { repeat constructor; eexists; vm_compute; reflexivity. }
  assert (Hserv : exists services, parseServices sampleForm = Return services).
  { eexists. vm_compute. reflexivity. }
  assert (Hadm : admits
                   (mkEnv 1000 (fun _ => Some (mkStoreError (lit "duplicate key value"))))
                   (sampleRequest sampleForm) (mkWorld ∅ [])).
  { reflexivity. }
  split; [exact Hadm|]. split; [reflexivity|]. split; [exact Hall|].
  split; [exact Hserv|].
  destruct (POST_store_outcome
              (mkEnv 1000 (fun _ => Some (mkStoreError (lit "duplicate key value"))))
              (sampleRequest sampleForm) (mkWorld ∅ []) sampleForm
              Hadm eq_refl Hall Hserv) as [row [Hins [Hfail _]]].
  exists row. split; [exact Hins|].
  exact (proj1 (Hfail (mkStoreError (lit "duplicate key value")) eq_refl)).
Defined.

End Gateway.

(** * Further properties *)

(** ** Rate limiter: invariants, frame and saturation *)

Section RateLimiterMore.

Local Open Scope Z_scope.

Implicit Types (store : gmap jsstring RateLimitEntry) (clientId : jsstring).

Lemma enforce_hits_bounded now clientId store :
  map_Forall (fun _ e => 1 <= hits e <= RATE_LIMIT_MAX_REQUESTS) store ->
  map_Forall (fun _ e => 1 <= hits e <= RATE_LIMIT_MAX_REQUESTS)
    (enforceRateLimit now clientId store).2.
Proof.
  intros H. unfold enforceRateLimit.
  destruct (store !! clientId) as [entry|] eqn:E.
  - pose proof (map_Forall_lookup_1 _ _ _ _ H E) as He. simpl in He.
    destruct (expiresAt entry >? now).
    + destruct (hits entry >=? RATE_LIMIT_MAX_REQUESTS) eqn:F; simpl; [exact H|].
      rewrite Z.geb_leb in F. apply Z.leb_gt in F.
      apply map_Forall_insert_2; [simpl; lia|exact H].
    + simpl. apply map_Forall_insert_2; [|exact H].
      simpl. unfold RATE_LIMIT_MAX_REQUESTS. lia.
  - simpl. apply map_Forall_insert_2; [|exact H].
    simpl. unfold RATE_LIMIT_MAX_REQUESTS. lia.
Qed.

(** X1. Whatever calls are made, by whatever clients and at whatever times,
    every entry keeps between 1 and 10 hits, if every entry had so at the
    start (as in the empty store the module starts with). *)
Theorem enforceAll_hits_bounded calls store :
  map_Forall (fun _ e => 1 <= hits e <= RATE_LIMIT_MAX_REQUESTS) store ->
  map_Forall (fun _ e => 1 <= hits e <= RATE_LIMIT_MAX_REQUESTS)
    (enforceAll calls store).2.
Proof.
  revert store. induction calls as [|[k now] calls IH]; intros store H; simpl.
  - exact H.
  - pose proof (enforce_hits_bounded now k store H) as H1.
    destruct (enforceRateLimit now k store) as [c st]. simpl in H1.
    specialize (IH st H1). destruct (enforceAll calls st) as [cs st']. exact IH.
Qed.

Lemma enforceAll_hits_bounded_witness :
  map_Forall (fun _ e => 1 <= hits e <= RATE_LIMIT_MAX_REQUESTS)
    (∅ : gmap jsstring RateLimitEntry) /\
  map_Forall (fun _ e => 1 <= hits e <= RATE_LIMIT_MAX_REQUESTS)
    (enforceAll sampleCalls ∅).2.
Proof.
  split; [apply map_Forall_empty|].
  apply (enforceAll_hits_bounded sampleCalls ∅), map_Forall_empty.
Defined.

Lemma enforce_self_is_Some now clientId store :
  is_Some ((enforceRateLimit now clientId store).2 !! clientId).
Proof.
  unfold enforceRateLimit. destruct (store !! clientId) as [entry|] eqn:E.
  - destruct (_ >? _); [destruct (_ >=? _)|]; simpl;
      rewrite ?lookup_insert_eq, ?E; eauto.
  - simpl. rewrite lookup_insert_eq. eauto.
Qed.

Lemma enforce_keeps_is_Some now clientId other store :
  is_Some (store !! other) ->
  is_Some ((enforceRateLimit now clientId store).2 !! other).
Proof.
  intros H. destruct (decide (clientId = other)) as [->|Hne].
  - apply enforce_self_is_Some.
  - now rewrite enforce_other.
Qed.

(** X2. Calls never remove an entry, leave the entry of every client that
    made none of them exactly as it was, and leave an entry behind for every
    client that made one. *)
Theorem enforceAll_frame calls store :
  (forall c, callsOf c calls = [] ->
     (enforceAll calls store).2 !! c = store !! c) /\
  (forall c, is_Some (store !! c) -> is_Some ((enforceAll calls store).2 !! c)) /\
  (forall c, callsOf c calls <> [] -> is_Some ((enforceAll calls store).2 !! c)).
Proof.
  revert store. induction calls as [|[k now] calls IH]; intros store; simpl.
  - repeat split; auto. intros c H. contradiction.
  - destruct (enforceRateLimit now k store) as [c0 st] eqn:E.
    assert (Est : st = (enforceRateLimit now k store).2) by now rewrite E.
    destruct (IH st) as (IH1 & IH2 & IH3).
    destruct (enforceAll calls st) as [cs st']. simpl in *.
    split; [|split].
    + intros c Hc. unfold callsOf in Hc. simpl in Hc.
      case_bool_decide as Hk; [discriminate|].
      rewrite (IH1 c Hc), Est. now apply enforce_other.
    + intros c Hc. apply IH2. rewrite Est. now apply enforce_keeps_is_Some.
    + intros c Hc. unfold callsOf in Hc. simpl in Hc.
      case_bool_decide as Hk.
      * subst k. apply IH2. rewrite Est. apply enforce_self_is_Some.
      * now apply IH3.
Qed.

Lemma enforceAll_frame_witness :
  callsOf (lit "203.0.113.7") sampleCalls = [] /\
  (enforceAll sampleCalls {[lit "203.0.113.7" := mkEntry 3 5000]}).2
    !! lit "203.0.113.7" = Some (mkEntry 3 5000).
Proof.
  split; [reflexivity|].
  exact (proj1 (enforceAll_frame sampleCalls {[lit "203.0.113.7" := mkEntry 3 5000]})
           (lit "203.0.113.7") eq_refl).
Defined.

(** Within the window of an entry, the calls are admitted until the entry
    holds the maximum, and rejected from then on. *)
Lemma enforceSeq_saturate clientId times store entry :
  store !! clientId = Some entry ->
  hits entry <= RATE_LIMIT_MAX_REQUESTS ->
  Forall (fun t => t < expiresAt entry) times ->
  (enforceSeq clientId times store).1 =
    repeat (Return tt)
      (Nat.min (length times) (Z.to_nat (RATE_LIMIT_MAX_REQUESTS - hits entry)))
    ++ repeat (Throw (ThrownClientError tooManyRequests))
         (length times - Z.to_nat (RATE_LIMIT_MAX_REQUESTS - hits entry)) /\
  (enforceSeq clientId times store).2 !! clientId =
    Some (mkEntry
            (hits entry
             + Z.of_nat (Nat.min (length times)
                           (Z.to_nat (RATE_LIMIT_MAX_REQUESTS - hits entry))))
            (expiresAt entry)).
Proof.
  revert store entry. induction times as [|t ts IH]; intros store entry Hl Hh Ht.
  - simpl. rewrite Z.add_0_r. split; [reflexivity|]. now destruct entry.
  - apply Forall_cons in Ht as [Ht Hts]. simpl enforceSeq. simpl length.
    destruct (Z.eq_dec (hits entry) RATE_LIMIT_MAX_REQUESTS) as [Hfull|Hroom].
    + rewrite (enforce_full t clientId store entry Hl Ht) by lia.
      destruct (IH store entry Hl Hh Hts) as [IH1 IH2].
      destruct (enforceSeq clientId ts store) as [cs st']. simpl in *.
      replace (Z.to_nat (RATE_LIMIT_MAX_REQUESTS - hits entry)) with 0%nat in * by lia.
      rewrite Nat.min_0_r in *. rewrite Nat.sub_0_r in *. simpl.
      split; [now f_equal|exact IH2].
    + rewrite (enforce_within t clientId store entry Hl Ht) by lia.
      destruct (IH (<[clientId := mkEntry (hits entry + 1) (expiresAt entry)]> store)
                   (mkEntry (hits entry + 1) (expiresAt entry))) as [IH1 IH2].
      { apply lookup_insert_eq. }
      { simpl. lia. }
      { exact Hts. }
      destruct (enforceSeq clientId ts _) as [cs st']. simpl in *.
      replace (Z.to_nat (RATE_LIMIT_MAX_REQUESTS - hits entry))
        with (S (Z.to_nat (RATE_LIMIT_MAX_REQUESTS - (hits entry + 1)))) by lia.
      simpl. split; [now f_equal|].
      rewrite IH2. f_equal. f_equal. lia.
Qed.

(** X3. For a client whose entry is absent or has expired when it calls at
    [t0], of any number of further calls before [t0] plus the window the
    first nine are admitted and every later one is rejected with the 429
    error; the entry ends with as many hits as calls were admitted and the
    expiry set by the call at [t0]. *)
Theorem rate_limit_saturation clientId store calls t0 later :
  (store !! clientId = None \/
   exists entry, store !! clientId = Some entry /\ expiresAt entry <= t0) ->
  callsOf clientId calls = t0 :: later ->
  Forall (fun t => t < t0 + RATE_LIMIT_WINDOW_MS) later ->
  completionsOf clientId calls (enforceAll calls store).1 =
    repeat (Return tt) (Nat.min (S (length later)) 10)
    ++ repeat (Throw (ThrownClientError tooManyRequests)) (S (length later) - 10) /\
  (enforceAll calls store).2 !! clientId =
    Some (mkEntry (Z.of_nat (Nat.min (S (length later)) 10))
            (t0 + RATE_LIMIT_WINDOW_MS)).
Proof.
  intros Hstart Hcalls Hlater.
  destruct (enforceAll_project clientId calls store store eq_refl) as [P1 P2].
  rewrite Hcalls in P1, P2. simpl in P1, P2.
  assert (Hfirst : enforceRateLimit t0 clientId store =
            (Return tt, <[clientId := mkEntry 1 (t0 + RATE_LIMIT_WINDOW_MS)]> store)).
  { destruct Hstart as [Hn|[entry [He Hx]]].
    - now apply enforce_absent.
    - now apply (enforce_expired _ _ _ entry). }
  rewrite Hfirst in P1, P2.
  destruct (enforceSeq_saturate clientId later
              (<[clientId := mkEntry 1 (t0 + RATE_LIMIT_WINDOW_MS)]> store)
              (mkEntry 1 (t0 + RATE_LIMIT_WINDOW_MS))) as [S1 S2].
  { apply lookup_insert_eq. }
  { simpl. unfold RATE_LIMIT_MAX_REQUESTS. lia. }
  { exact Hlater. }
  destruct (enforceSeq clientId later _) as [cs st']. simpl in *.
  change (Z.to_nat (RATE_LIMIT_MAX_REQUESTS - 1)) with 9%nat in *.
  rewrite P1, P2, S1, S2. split.
  - destruct (length later) as [|n]; [reflexivity|].
    change (S (S n) - 10)%nat with (S n - 9)%nat.
    destruct (Nat.min (S n) 9) eqn:Em; [lia|]. 
    replace (Nat.min (S (S n)) 10) with (S (S n0)) by lia. reflexivity.
  - f_equal. f_equal. lia.
Qed.

Lemma rate_limit_saturation_witness :
  (exists entry,
     ({[lit "unknown" := mkEntry 10 999]} : gmap jsstring RateLimitEntry)
       !! lit "unknown" = Some entry /\ expiresAt entry <= 1000) /\
  callsOf (lit "unknown") (map (fun t => (lit "unknown", t)) (1000 :: seqZ 1001 11))
    = 1000 :: seqZ 1001 11 /\
  Forall (fun t => t < 1000 + RATE_LIMIT_WINDOW_MS) (seqZ 1001 11) /\
  completionsOf (lit "unknown")
    (map (fun t => (lit "unknown", t)) (1000 :: seqZ 1001 11))
    (enforceAll (map (fun t => (lit "unknown", t)) (1000 :: seqZ 1001 11))
       {[lit "unknown" := mkEntry 10 999]}).1
  = repeat (Return tt) 10
    ++ repeat (Throw (ThrownClientError tooManyRequests)) 2.
Proof.
  assert (H1 : exists entry,
     ({[lit "unknown" := mkEntry 10 999]} : gmap jsstring RateLimitEntry)
       !! lit "unknown" = Some entry /\ expiresAt entry <= 1000).
  { exists (mkEntry 10 999). split; [reflexivity|simpl; lia]. }
  assert (H3 : Forall (fun t => t < 1000 + RATE_LIMIT_WINDOW_MS) (seqZ 1001 11)).
  { repeat constructor. }
  split; [exact H1|]. split; [reflexivity|]. split; [exact H3|].
  exact (proj1 (rate_limit_saturation (lit "unknown")
                  {[lit "unknown" := mkEntry 10 999]}
                  (map (fun t => (lit "unknown", t)) (1000 :: seqZ 1001 11))
                  1000 (seqZ 1001 11) (or_intror H1) eq_refl H3)).
Defined.

End RateLimiterMore.

(** ** Sanitizer: what a second pass does, and what is kept *)

Section SanitizerMore.

Implicit Types (s t : jsstring) (c : N).

Lemma trimEnd_shorter s : length (trimEnd s) <= length s.
Proof.
  destruct (trimEnd_split s) as [q [Hq _]]. rewrite Hq at 2.
  rewrite length_app. lia.
Qed.

Lemma normalize_is_sanitizeText s :
  normalize s = sanitizeText s (Z.of_nat (length (normalize s))).
Proof. unfold sanitizeText. symmetry. apply slice0_id. lia. Qed.

(** X4. Sanitizing a sanitized text again, under the same bound (not
    negative), only trims the whitespace the truncation may have left at its
    end; the normalization itself is idempotent, and so is [sanitizeText]
    whenever the normalized text fits the bound. *)
Theorem sanitizeText_twice s (maxLength : Z) :
  (0 <= maxLength)%Z ->
  sanitizeText (sanitizeText s maxLength) maxLength = trimEnd (sanitizeText s maxLength) /\
  normalize (normalize s) = normalize s /\
  ((Z.of_nat (length (normalize s)) <= maxLength)%Z ->
   sanitizeText (sanitizeText s maxLength) maxLength = sanitizeText s maxLength).
Proof.
  intros Hm.
  assert (Hclean : forall m, normalize (sanitizeText s m) = trimEnd (sanitizeText s m)).
  { intros m. apply normalize_clean.
    - apply noControl_sanitizeText.
    - apply singleSpaced_sanitizeText.
    - apply headNotSpace_sanitizeText. }
  assert (Htwice : sanitizeText (sanitizeText s maxLength) maxLength
                   = trimEnd (sanitizeText s maxLength)).
  { unfold sanitizeText at 1. rewrite Hclean. apply slice0_id.
    pose proof (trimEnd_shorter (sanitizeText s maxLength)).
    pose proof (slice0_length (normalize s) maxLength Hm).
    unfold sanitizeText in *. lia. }
  split; [exact Htwice|]. split.
  - rewrite (normalize_is_sanitizeText s) at 1. rewrite Hclean.
    rewrite <- normalize_is_sanitizeText.
    apply trimEnd_id. unfold normalize, trim. apply lastNotSpace_trimEnd.
  - intros Hfit. rewrite Htwice. unfold sanitizeText.
    rewrite (slice0_id _ _ Hfit).
    apply trimEnd_id. unfold normalize, trim. apply lastNotSpace_trimEnd.
Qed.

Lemma sanitizeText_twice_witness :
  (0 <= 3)%Z /\
  sanitizeText (lit "ab cd") 3 = lit "ab " /\
  sanitizeText (sanitizeText (lit "ab cd") 3) 3 = lit "ab".
Proof.
  split; [lia|]. split; [reflexivity|].
  rewrite (proj1 (sanitizeText_twice (lit "ab cd") 3 ltac:(lia))). reflexivity.
Defined.

Lemma filter_visible_blank s :
  forallb isWhiteSpace s = true -> List.filter visible s = [].
Proof.
  induction s as [|c r IH]; simpl; [easy|].
  intros H. apply andb_true_iff in H as [Hc Hr].
  unfold visible at 1, blank. rewrite Hc, orb_true_r. simpl. auto.
Qed.

Lemma filter_visible_removeControl s :
  List.filter visible (removeControl s) = List.filter visible s.
Proof.
  unfold removeControl. induction s as [|c r IH]; simpl; [reflexivity|].
  destruct (isControl c) eqn:Hc; simpl.
  - unfold visible at 2, blank. rewrite Hc. simpl. exact IH.
  - now rewrite IH.
Qed.

Lemma filter_visible_replaceRuns b s :
  List.filter visible (replaceRuns b s) = List.filter visible s.
Proof.
  revert b. induction s as [|c r IH]; intros b; simpl; [reflexivity|].
  destruct (isWhiteSpace c) eqn:Hc.
  - assert (Hv : visible c = false).
    { unfold visible, blank. now rewrite Hc, orb_true_r. }
    rewrite Hv. destruct b; simpl; apply IH.
  - simpl. now rewrite IH.
Qed.

Lemma filter_visible_trim s : List.filter visible (trim s) = List.filter visible s.
Proof.
  unfold trim.
  destruct (trimStart_split s) as [p [Hp Hpw]].
  destruct (trimEnd_split (trimStart s)) as [q [Hq Hqw]].
  rewrite Hp at 2. rewrite Hq at 2.
  rewrite !List.filter_app, (filter_visible_blank p Hpw), (filter_visible_blank q Hqw).
  now rewrite app_nil_r.
Qed.

Lemma length_replaceRuns b s : length (replaceRuns b s) <= length s.
Proof.
  revert b. induction s as [|c r IH]; intros b; simpl; [lia|].
  pose proof (IH true). pose proof (IH false).
  destruct (isWhiteSpace c); [destruct b|]; simpl; lia.
Qed.

Lemma length_normalize s : length (normalize s) <= length s.
Proof.
  destruct (normalize_split s) as [p [q H]].
  apply (f_equal (@length N)) in H. rewrite !length_app in H.
  pose proof (length_replaceRuns false (removeControl s)) as H1.
  fold (replaceWhitespace (removeControl s)) in H1.
  pose proof (List.filter_length_le (fun c => negb (isControl c)) s) as H2.
  fold (removeControl s) in H2. lia.
Qed.

(** X5. The sanitizer never adds, changes or reorders a visible character
    (one that is neither whitespace nor control): the visible characters of
    the normalized text are those of the input, those of the sanitized text
    are a prefix of them, the output is never longer than the input, and
    under a bound of at least the input's length nothing visible is lost. *)
Theorem sanitizeText_keeps_visible s (maxLength : Z) :
  List.filter visible (normalize s) = List.filter visible s /\
  (exists cut,
     List.filter visible s = List.filter visible (sanitizeText s maxLength) ++ cut) /\
  length (sanitizeText s maxLength) <= length s /\
  ((Z.of_nat (length s) <= maxLength)%Z ->
   List.filter visible (sanitizeText s maxLength) = List.filter visible s).
Proof.
  assert (Hn : List.filter visible (normalize s) = List.filter visible s).
  { unfold normalize, replaceWhitespace.
    now rewrite filter_visible_trim, filter_visible_replaceRuns,
      filter_visible_removeControl. }
  split; [exact Hn|]. split; [|split].
  - destruct (slice0_split (normalize s) maxLength) as [q Hq].
    exists (List.filter visible q). rewrite <- Hn, Hq at 1.
    now rewrite List.filter_app.
  - destruct (slice0_split (normalize s) maxLength) as [q Hq].
    pose proof (length_normalize s) as Hl.
    apply (f_equal (@length N)) in Hq. rewrite length_app in Hq.
    unfold sanitizeText. lia.
  - intros Hfit. unfold sanitizeText. rewrite slice0_id; [exact Hn|].
    pose proof (length_normalize s). lia.
Qed.

Lemma sanitizeText_keeps_visible_witness :
  (Z.of_nat (length [9; 74; 0; 32; 32; 82; 10; 46]%N) <= 120)%Z /\
  List.filter visible (sanitizeText [9; 74; 0; 32; 32; 82; 10; 46]%N 120)
    = [74; 82; 46]%N.
Proof.
  split; [simpl; lia|].
  rewrite (proj2 (proj2 (proj2
             (sanitizeText_keeps_visible [9; 74; 0; 32; 32; 82; 10; 46]%N 120)))).
  - reflexivity.
  - simpl. lia.
Defined.

End SanitizerMore.

(** ** Patterns: what the regular expressions accept *)

Section Patterns.

Implicit Types (r a b : regex) (s t : jsstring) (c : N).

Lemma matches_REps s : matches REps s <-> s = [].
Proof. split; [intros H; now inversion H|intros ->; constructor]. Qed.

Lemma matches_RClass p s : matches (RClass p) s <-> exists c, s = [c] /\ p c = true.
Proof.
  split; [intros H; inversion H; eauto|].
  intros [c [-> H]]. now constructor.
Qed.

Lemma matches_RSeq a b s :
  matches (RSeq a b) s <-> exists s1 s2, s = s1 ++ s2 /\ matches a s1 /\ matches b s2.
Proof.
  split; [intros H; inversion H; subst; eauto|].
  intros (s1 & s2 & -> & H1 & H2). now constructor.
Qed.

Lemma matches_RAlt a b s : matches (RAlt a b) s <-> matches a s \/ matches b s.
Proof.
  split; [intros H; inversion H; subst; auto|].
  intros [H|H]; [now apply MAltL|now apply MAltR].
Qed.

Lemma matches_RStar_cons a c s :
  matches (RStar a) (c :: s) <->
  exists s1 s2, s = s1 ++ s2 /\ matches a (c :: s1) /\ matches (RStar a) s2.
Proof.
  split.
  - intros H. remember (RStar a) as r eqn:Er. remember (c :: s) as u eqn:Eu.
    revert c s Eu. induction H as [| | | | | |a' s1 s2 H1 _ H2 IH2]; intros c0 s0 Eu;
      try discriminate.
    injection Er as ->. destruct s1 as [|c1 s1].
    + simpl in Eu. now apply IH2.
    + simpl in Eu. injection Eu as -> <-. eauto.
  - intros (s1 & s2 & -> & H1 & H2).
    change (c :: s1 ++ s2) with ((c :: s1) ++ s2). now constructor.
Qed.

Lemma nullable_matches r : nullable r = true <-> matches r [].
Proof.
  induction r as [| |p|a IHa b IHb|a IHa b IHb|a IHa]; simpl.
  - split; [discriminate|intros H; inversion H].
  - split; [constructor|reflexivity].
  - split; [discriminate|intros H; inversion H].
  - rewrite andb_true_iff, IHa, IHb, matches_RSeq. split.
    + intros [Ha Hb]. now exists [], [].
    + intros (s1 & s2 & E & Ha & Hb). symmetry in E.
      apply app_eq_nil in E as [-> ->]. auto.
  - now rewrite orb_true_iff, IHa, IHb, matches_RAlt.
  - split; [constructor|reflexivity].
Qed.

Lemma mkSeq_matches a b s : matches (mkSeq a b) s <-> matches (RSeq a b) s.
Proof.
  rewrite matches_RSeq.
  assert (Hnone_l : forall b', (exists s1 s2, s = s1 ++ s2 /\ matches RNone s1
                                  /\ matches b' s2) <-> matches RNone s).
  { intros b'. split; [intros (? & ? & _ & H & _)|intros H]; now inversion H. }
  assert (Hnone_r : forall a', (exists s1 s2, s = s1 ++ s2 /\ matches a' s1
                                  /\ matches RNone s2) <-> matches RNone s).
  { intros a'. split; [intros (? & ? & _ & _ & H)|intros H]; now inversion H. }
  assert (Heps : forall b', (exists s1 s2, s = s1 ++ s2 /\ matches REps s1
                              /\ matches b' s2) <-> matches b' s).
  { intros b'. split.
    - intros (s1 & s2 & -> & H1 & H2). apply matches_REps in H1. now subst.
    - intros H. exists [], s. repeat split; [constructor|exact H]. }
  destruct a; destruct b; simpl;
    rewrite ?Hnone_l, ?Hnone_r, ?Heps, ?matches_RSeq; reflexivity.
Qed.

Lemma mkAlt_matches a b s : matches (mkAlt a b) s <-> matches a s \/ matches b s.
Proof.
  destruct a; destruct b; simpl; rewrite ?matches_RAlt;
    split; intros H; auto;
    repeat match goal with
           | H : _ \/ _ |- _ => destruct H
           | H : matches RNone _ |- _ => now inversion H
           end; auto.
Qed.

Lemma deriv_matches r c s : matches (deriv c r) s <-> matches r (c :: s).
Proof.
  revert s. induction r as [| |p|a IHa b IHb|a IHa b IHb|a IHa]; intros s; simpl.
  - split; intros H; inversion H.
  - split; intros H; inversion H.
  - rewrite matches_RClass. destruct (p c) eqn:Hp.
    + rewrite matches_REps. split.
      * intros ->. eauto.
      * intros (c' & [= <- ->] & _). reflexivity.
    + split; [intros H; inversion H|].
      intros (c' & [= <- ->] & H). congruence.
  - assert (Hcons : matches (RSeq a b) (c :: s) <->
              (exists s1 s2, s = s1 ++ s2 /\ matches a (c :: s1) /\ matches b s2)
              \/ (matches a [] /\ matches b (c :: s))).
    { rewrite matches_RSeq. split.
      - intros (s1 & s2 & E & Ha & Hb). destruct s1 as [|c1 s1].
        + simpl in E. subst s2. auto.
        + simpl in E. injection E as <- ->. left. eauto.
      - intros [(s1 & s2 & -> & Ha & Hb)|[Ha Hb]].
        + exists (c :: s1), s2. auto.
        + exists [], (c :: s). auto. }
    rewrite Hcons. destruct (nullable a) eqn:Na.
    + rewrite mkAlt_matches, mkSeq_matches, matches_RSeq, IHb.
      apply nullable_matches in Na.
      split; (intros [(s1 & s2 & E & Ha & Hb)|H];
              [left; exists s1, s2; rewrite ?IHa in *; auto | right; tauto]).
    + rewrite mkSeq_matches, matches_RSeq. split.
      * intros (s1 & s2 & E & Ha & Hb). left. exists s1, s2. rewrite <- IHa. auto.
      * intros [(s1 & s2 & E & Ha & Hb)|[Ha _]].
        -- exists s1, s2. rewrite IHa. auto.
        -- apply nullable_matches in Ha. congruence.
  - now rewrite mkAlt_matches, matches_RAlt, IHa, IHb.
  - rewrite mkSeq_matches, matches_RSeq, matches_RStar_cons.
    split; intros (s1 & s2 & E & Ha & Hb); exists s1, s2;
      rewrite ?IHa in *; auto.
Qed.

(** The matcher decides the language. *)
Lemma test_matches r s : test r s = true <-> matches r s.
Proof.
  unfold test. revert r. induction s as [|c s IH]; intros r; simpl.
  - apply nullable_matches.
  - now rewrite IH, deriv_matches.
Qed.

Lemma matches_star_class p s :
  matches (RStar (RClass p)) s <-> forallb p s = true.
Proof.
  induction s as [|c s IH]; simpl.
  - split; [reflexivity|constructor].
  - rewrite matches_RStar_cons, andb_true_iff, <- IH. split.
    + intros (s1 & s2 & -> & H1 & H2). apply matches_RClass in H1 as (c' & E & Hp).
      injection E as <- ->. auto.
    + intros [Hp Hs]. exists [], s. repeat split; [|exact Hs].
      now constructor.
Qed.

Lemma matches_plus_class p s :
  matches (rPlus (RClass p)) s <-> s <> [] /\ forallb p s = true.
Proof.
  unfold rPlus. rewrite matches_RSeq. split.
  - intros (s1 & s2 & -> & H1 & H2). apply matches_RClass in H1 as (c & -> & Hp).
    apply matches_star_class in H2. simpl. now rewrite Hp, H2.
  - intros [Hne H]. destruct s as [|c s]; [contradiction|].
    simpl in H. apply andb_true_iff in H as [Hp Hs].
    exists [c], s. repeat split; [now constructor|now apply matches_star_class].
Qed.

Lemma matches_upTo_class p n s :
  matches (rUpTo (RClass p) n) s <-> length s <= n /\ forallb p s = true.
Proof.
  revert s. induction n as [|n IH]; intros s; simpl.
  - rewrite matches_REps. split.
    + intros ->. simpl. auto.
    + intros [H _]. destruct s; [reflexivity|simpl in H; lia].
  - rewrite matches_RAlt, matches_REps, matches_RSeq. split.
    + intros [->|(s1 & s2 & -> & H1 & H2)]; [simpl; split; [lia|reflexivity]|].
      apply matches_RClass in H1 as (c & -> & Hp). apply IH in H2 as [Hl Hs].
      simpl. rewrite Hp, Hs. split; [lia|reflexivity].
    + intros [Hl Hs]. destruct s as [|c s]; [now left|right].
      simpl in Hl, Hs. apply andb_true_iff in Hs as [Hp Hs].
      exists [c], s. repeat split; [now constructor|]. apply IH. split; [lia|exact Hs].
Qed.

Lemma matches_repeat_class p lo more s :
  matches (rRepeat (RClass p) lo more) s <->
  lo <= length s <= lo + more /\ forallb p s = true.
Proof.
  revert s. induction lo as [|lo IH]; intros s; simpl.
  - rewrite matches_upTo_class. split; intros [H1 H2]; split; auto; lia.
  - rewrite matches_RSeq. split.
    + intros (s1 & s2 & -> & H1 & H2).
      apply matches_RClass in H1 as (c & -> & Hp). apply IH in H2 as [Hl Hs].
      simpl. rewrite Hp, Hs. split; [lia|reflexivity].
    + intros [Hl Hs]. destruct s as [|c s]; [simpl in Hl; lia|].
      simpl in Hl, Hs. apply andb_true_iff in Hs as [Hp Hs].
      exists [c], s. repeat split; [now constructor|]. apply IH. split; [lia|exact Hs].
Qed.

(** X6. The phone, grade and identifier patterns accept exactly the strings
    of 7 to 20, 1 to 15 and 5 to 30 code units taken from their character
    class; the phone and grade classes include whitespace, the identifier
    class does not. *)
Theorem counted_patterns s :
  (test phonePattern s = true <->
     7 <= length s <= 20 /\ forallb phoneChar s = true) /\
  (test gradePattern s = true <->
     1 <= length s <= 15 /\ forallb gradeChar s = true) /\
  (test idPattern s = true <->
     5 <= length s <= 30 /\ forallb idChar s = true) /\
  (forall c, isWhiteSpace c = true ->
     phoneChar c = true /\ gradeChar c = true /\ idChar c = false).
Proof.
  split; [|split; [|split]].
  - rewrite test_matches. unfold phonePattern. fold phoneChar.
    now rewrite (matches_repeat_class phoneChar 7 13 s).
  - rewrite test_matches. unfold gradePattern. fold gradeChar.
    now rewrite (matches_repeat_class gradeChar 1 14 s).
  - rewrite test_matches. unfold idPattern. fold idChar.
    now rewrite (matches_repeat_class idChar 5 25 s).
  - intros c Hc. unfold phoneChar, gradeChar. rewrite Hc, !orb_true_r.
    repeat split. apply not_true_is_false. intros Hid.
    unfold idChar, isAlnum, isDigit, among in Hid.
    change (lit "-.") with [45%N; 46%N] in Hid.
    unfold isWhiteSpace in Hc. simpl existsb in Hid.
    repeat first [ rewrite orb_true_iff in Hc | rewrite andb_true_iff in Hc
                 | rewrite N.leb_le in Hc | rewrite N.eqb_eq in Hc ].
    repeat first [ rewrite orb_true_iff in Hid | rewrite andb_true_iff in Hid
                 | rewrite N.leb_le in Hid | rewrite N.eqb_eq in Hid ].
    intuition (try discriminate; lia).
Qed.

Lemma emailAtom_facts c :
  emailAtom c = true -> isWhiteSpace c = false /\ (64 =? c)%N = false.
Proof.
  unfold emailAtom. rewrite negb_true_iff, orb_false_iff, N.eqb_sym. tauto.
Qed.

Lemma emailAtom_all s :
  forallb emailAtom s = true ->
  forallb (fun c => negb (isWhiteSpace c)) s = true /\ List.filter (N.eqb 64) s = [].
Proof.
  induction s as [|c r IH]; [easy|]. cbn [forallb List.filter].
  intros H. apply andb_true_iff in H as [Hc Hr].
  apply emailAtom_facts in Hc as [Hw Ha]. destruct (IH Hr) as [IH1 IH2].
  now rewrite Hw, Ha, IH1, IH2.
Qed.

(** X7. The email pattern accepts exactly the strings made of a local part,
    an at sign, a domain and, after a dot of the domain, a last part, the
    three parts not empty and free of whitespace and at signs; so an
    accepted address holds no whitespace and exactly one at sign. *)
Theorem emailPattern_accepts s :
  (test emailPattern s = true <->
   exists localPart domain tld,
     s = localPart ++ 64%N :: domain ++ 46%N :: tld /\
     localPart <> [] /\ domain <> [] /\ tld <> [] /\
     forallb emailAtom localPart = true /\
     forallb emailAtom domain = true /\
     forallb emailAtom tld = true) /\
  (test emailPattern s = true ->
   forallb (fun c => negb (isWhiteSpace c)) s = true /\
   length (List.filter (N.eqb 64) s) = 1).
Proof.
  assert (Hshape : test emailPattern s = true <->
    exists localPart domain tld,
      s = localPart ++ 64%N :: domain ++ 46%N :: tld /\
      localPart <> [] /\ domain <> [] /\ tld <> [] /\
      forallb emailAtom localPart = true /\
      forallb emailAtom domain = true /\
      forallb emailAtom tld = true).
  { rewrite test_matches. unfold emailPattern. cbv zeta. fold emailAtom.
    split.
    - intros H.
      apply matches_RSeq in H as (l & r1 & -> & Hl & H).
      apply matches_RSeq in H as (at_ & r2 & -> & Hat & H).
      apply matches_RSeq in H as (d & r3 & -> & Hd & H).
      apply matches_RSeq in H as (dot & t & -> & Hdot & Ht).
      apply matches_plus_class in Hl as [Hl1 Hl2].
      apply matches_plus_class in Hd as [Hd1 Hd2].
      apply matches_plus_class in Ht as [Ht1 Ht2].
      apply matches_RClass in Hat as (c1 & -> & E1). apply N.eqb_eq in E1. subst c1.
      apply matches_RClass in Hdot as (c2 & -> & E2). apply N.eqb_eq in E2. subst c2.
      exists l, d, t. repeat split; auto.
    - intros (l & d & t & -> & Hl1 & Hd1 & Ht1 & Hl2 & Hd2 & Ht2).
      apply matches_RSeq. exists l, (64%N :: d ++ 46%N :: t).
      split; [reflexivity|]. split; [now apply matches_plus_class|].
      apply matches_RSeq. exists [64%N], (d ++ 46%N :: t).
      split; [reflexivity|]. split; [now constructor|].
      apply matches_RSeq. exists d, (46%N :: t).
      split; [reflexivity|]. split; [now apply matches_plus_class|].
      apply matches_RSeq. exists [46%N], t.
      split; [reflexivity|]. split; [now constructor|now apply matches_plus_class]. }
  split; [exact Hshape|].
  intros H. apply Hshape in H as (l & d & t & -> & _ & _ & _ & Hl & Hd & Ht).
  apply emailAtom_all in Hl as [Hl1 Hl2].
  apply emailAtom_all in Hd as [Hd1 Hd2].
  apply emailAtom_all in Ht as [Ht1 Ht2].
  split.
  - rewrite forallb_app. simpl. rewrite forallb_app. simpl.
    now rewrite Hl1, Hd1, Ht1.
  - rewrite List.filter_app. simpl. rewrite List.filter_app. simpl.
    now rewrite Hl2, Hd2, Ht2.
Qed.

Lemma emailPattern_accepts_witness :
  test emailPattern (lit "ana.perez@mail.example.co") = true /\
  forallb (fun c => negb (isWhiteSpace c)) (lit "ana.perez@mail.example.co") = true /\
  length (List.filter (N.eqb 64) (lit "ana.perez@mail.example.co")) = 1.
Proof.
  split; [reflexivity|].
  exact (proj2 (emailPattern_accepts (lit "ana.perez@mail.example.co")) eq_refl).
Defined.

End Patterns.

(** ** Validator: outcomes, duplicate names, file values *)

Section ValidatorMore.

Implicit Types (s v : jsstring) (formData : FormData) (options : FieldOptions).

(** X8. [parseField] throws the "invalid format" error exactly when the
    value is present and not empty, its sanitized text is not empty, and the
    rule has a pattern that rejects that text; and whatever it throws is
    one of its two errors, under the label of the field and with status
    400. *)
Theorem parseField_format_error formData key options :
  (parseField formData key options
     = Throw (ThrownClientError (formatError (fieldLabel key options)))
   <-> exists value p,
         get formData key = Some value /\ truthyValue value = true /\
         sanitizeText (toString value) (default 180%Z (maxLength options)) <> [] /\
         pattern options = Some p /\
         p (sanitizeText (toString value) (default 180%Z (maxLength options))) = false) /\
  (forall e, parseField formData key options = Throw e ->
     (e = ThrownClientError (requiredError (fieldLabel key options)) \/
      e = ThrownClientError (formatError (fieldLabel key options))) /\
     status (requiredError (fieldLabel key options)) = 400%Z /\
     status (formatError (fieldLabel key options)) = 400%Z).
Proof.
  assert (Hneq : forall l,
            @Throw jsstring (ThrownClientError (requiredError l))
            <> Throw (ThrownClientError (formatError l))).
  { intros l H. apply (requiredError_neq_formatError l l). congruence. }
  unfold parseField. split.
  - destruct (get formData key) as [value|] eqn:G.
    + destruct (truthyValue value) eqn:Tv; simpl.
      * destruct (truthy (sanitizeText _ _)) eqn:Ts; simpl.
        -- assert (Hne : sanitizeText (toString value)
                           (default 180%Z (maxLength options)) <> []).
           { intros E. rewrite E in Ts. discriminate. }
           destruct (pattern options) as [p|] eqn:P.
           ++ destruct (p _) eqn:Pv; simpl.
              ** split; [discriminate|].
                 intros (v' & p' & [= <-] & _ & _ & [= <-] & H). congruence.
              ** split; [|reflexivity]. intros _. exists value, p. auto.
           ++ split; [discriminate|].
              intros (v' & p' & _ & _ & _ & H & _). discriminate.
        -- split.
           ++ intros H. exfalso. now apply (Hneq (fieldLabel key options)).
           ++ intros (v' & p' & [= <-] & _ & H & _).
              apply truthy_false_iff in Ts. contradiction.
      * split.
        -- intros H. exfalso. now apply (Hneq (fieldLabel key options)).
        -- intros (v' & p' & [= <-] & H & _). congruence.
    + split.
      * intros H. exfalso. now apply (Hneq (fieldLabel key options)).
      * intros (v' & p' & H & _). discriminate.
  - intros e.
    destruct (get formData key) as [value|]; [|intros [= <-]; auto].
    destruct (truthyValue value); simpl; [|intros [= <-]; auto].
    destruct (truthy _); simpl; [|intros [= <-]; auto].
    destruct (pattern options) as [p|]; [destruct (p _)|]; simpl;
      try discriminate.
    intros [= <-]. auto.
Qed.

Lemma get_first formData key value (rest : FormData) :
  key ∉ map fst formData ->
  get (formData ++ (key, value) :: rest) key = Some value.
Proof.
  induction formData as [|[k v] fd IH]; simpl; intros Hk.
  - now rewrite bool_decide_eq_true_2.
  - rewrite not_elem_of_cons in Hk. destruct Hk as [Hne Hk].
    rewrite bool_decide_eq_false_2 by congruence. auto.
Qed.

(** X9. Only the first value sent under a name counts: entries under other
    names before it, and any entries after it, change nothing. *)
Theorem parseField_first_value formData key value (rest : FormData) options :
  key ∉ map fst formData ->
  parseField (formData ++ (key, value) :: rest) key options
    = parseField [(key, value)] key options.
Proof.
  intros Hk. unfold parseField.
  rewrite (get_first formData key value rest Hk).
  pose proof (get_first [] key value [] (not_elem_of_nil _)) as E.
  simpl app in E. now rewrite E.
Qed.

Lemma parseField_first_value_witness :
  (lit "grade" ∉ map fst [(lit "student_name", FormString (lit "Ana"))]) /\
  parseField
    ([(lit "student_name", FormString (lit "Ana"))]
     ++ (lit "grade", FormString (lit "5")) :: [(lit "grade", FormString (lit "@@"))])
    (lit "grade")
    (mkOptions (Some 15%Z) (Some (test gradePattern)) (Some (lit "grado a cursar")))
  = Return (lit "5").
Proof.
  assert (H : lit "grade" ∉ map fst [(lit "student_name", FormString (lit "Ana"))]).
  { simpl. rewrite list_elem_of_singleton. discriminate. }
  split; [exact H|].
  rewrite (parseField_first_value [(lit "student_name", FormString (lit "Ana"))]
             (lit "grade") (FormString (lit "5"))
             [(lit "grade", FormString (lit "@@"))] _ H).
  reflexivity.
Defined.

(** X10. A file sent under the name of a text field is not refused: a rule
    without a pattern whose bound is at least 13 accepts it and returns the
    text "[object File]". *)
Theorem parseField_file formData key options name :
  get formData key = Some (FormFile name) ->
  pattern options = None ->
  (13 <= default 180%Z (maxLength options))%Z ->
  parseField formData key options = Return (lit "[object File]").
Proof.
  intros G P Hm. unfold parseField. rewrite G, P. simpl truthyValue. simpl negb.
  cbv iota. simpl toString.
  assert (E : sanitizeText (lit "[object File]") (default 180%Z (maxLength options))
              = lit "[object File]").
  { unfold sanitizeText.
    change (normalize (lit "[object File]")) with (lit "[object File]").
    apply slice0_id. simpl. lia. }
  rewrite E. reflexivity.
Qed.

Lemma parseField_file_witness :
  get [(lit "observaciones", FormFile (lit "notas.pdf"))] (lit "observaciones")
    = Some (FormFile (lit "notas.pdf")) /\
  (13 <= default 180%Z (maxLength (mkOptions (Some 500%Z) None None)))%Z /\
  parseField [(lit "observaciones", FormFile (lit "notas.pdf"))] (lit "observaciones")
    (mkOptions (Some 500%Z) None None) = Return (lit "[object File]").
Proof.
  split; [reflexivity|]. split; [simpl; lia|].
  apply (parseField_file _ _ _ (lit "notas.pdf")); [reflexivity|reflexivity|simpl; lia].
Defined.

End ValidatorMore.

(** ** Service options: a fixed point, and at most three *)

Section ServicesMore.

Implicit Types (l seen : list jsstring) (x : jsstring).

Lemma allowed_cases x :
  x ∈ ALLOWED_SERVICES <-> x = lit "AM" \/ x = lit "PM" \/ x = lit "1/2".
Proof.
  unfold ALLOWED_SERVICES. rewrite !elem_of_union, !elem_of_singleton. tauto.
Qed.

Lemma uniqueFrom_NoDup seen l :
  NoDup l -> (forall x, x ∈ l -> x ∉ seen) -> uniqueFrom seen l = l.
Proof.
  revert seen. induction l as [|y r IH]; intros seen Hnd Hs; simpl; [reflexivity|].
  apply NoDup_cons in Hnd as [Hy Hr].
  rewrite bool_decide_eq_false_2 by (apply Hs; now left).
  f_equal. apply IH; [exact Hr|].
  intros x Hx. rewrite not_elem_of_cons. split.
  - intros ->. contradiction.
  - apply Hs. now right.
Qed.

Lemma sanitizedServices_allowed l :
  (forall x, x ∈ l -> x ∈ ALLOWED_SERVICES) ->
  sanitizedServices (servicesForm l) = l.
Proof.
  unfold sanitizedServices, servicesForm.
  induction l as [|y r IH]; intros H; [reflexivity|].
  simpl.
  assert (Hy : sanitizeText y 10 = y /\ truthy y = true).
  { assert (Hin : y ∈ ALLOWED_SERVICES) by (apply H; now left).
    apply allowed_cases in Hin as [-> | [-> | ->]]; split; reflexivity. }
  destruct Hy as [-> ->]. f_equal. apply IH.
  intros x Hx. apply H. now right.
Qed.

(** What a successful [parseServices] says about its result. *)
Lemma parseServices_Return (formData : FormData) (services : list jsstring) :
  parseServices formData = Return services ->
  services = uniqueFrom [] (sanitizedServices formData) /\
  services <> [] /\
  NoDup services /\
  (forall x, x ∈ services -> x ∈ ALLOWED_SERVICES).
Proof.
  intros H.
  assert (Hu : services = uniqueFrom [] (sanitizedServices formData)).
  { unfold parseServices in H. fold (sanitizedServices formData) in H.
    destruct (_ || _); [discriminate|]. now injection H as <-. }
  split; [exact Hu|].
  assert (Hnd : NoDup services) by (rewrite Hu; apply NoDup_uniqueFrom).
  unfold parseServices in H. fold (sanitizedServices formData) in H.
  rewrite <- Hu in H.
  destruct (List.filter _ services) as [|i inv] eqn:Ei; simpl in H; [|discriminate].
  destruct services as [|s0 ss]; simpl in H; [discriminate|].
  split; [discriminate|]. split; [exact Hnd|]. intros x Hx.
  destruct (decide (x ∈ ALLOWED_SERVICES)) as [Hin|Hout]; [exact Hin|exfalso].
  assert (Hf : In x (List.filter
                       (fun s => negb (bool_decide (s ∈ ALLOWED_SERVICES)))
                       (s0 :: ss))).
  { apply List.filter_In. split; [now apply list_elem_of_In|].
    now rewrite bool_decide_eq_false_2. }
  rewrite Ei in Hf. contradiction.
Qed.

Lemma parseServices_Throw (formData : FormData) e :
  parseServices formData = Throw e -> e = ThrownClientError servicesError.
Proof.
  unfold parseServices. destruct (_ || _); [|discriminate]. now intros [= <-].
Qed.

(** X11. What [parseServices] returns is a fixed point: sent again as the
    service options, it is returned unchanged.  It holds at least one and at
    most three values, without duplicates, all of them among AM, PM and
    1/2. *)
Theorem parseServices_fixed_point (formData : FormData) (services : list jsstring) :
  parseServices formData = Return services ->
  parseServices (servicesForm services) = Return services /\
  1 <= length services <= 3 /\
  NoDup services /\
  (forall x, x ∈ services -> x = lit "AM" \/ x = lit "PM" \/ x = lit "1/2").
Proof.
  intros H. apply parseServices_Return in H as (_ & Hne & Hnd & Hall).
  split; [|split; [|split]].
  - unfold parseServices. fold (sanitizedServices (servicesForm services)).
    rewrite (sanitizedServices_allowed services Hall).
    rewrite (uniqueFrom_NoDup [] services Hnd) by (intros; apply not_elem_of_nil).
    assert (Ef : List.filter (fun s => negb (bool_decide (s ∈ ALLOWED_SERVICES)))
                   services = []).
    { clear - Hall. induction services as [|y r IH]; [reflexivity|]. simpl.
      rewrite bool_decide_eq_true_2 by (apply Hall; now left). simpl.
      apply IH. intros x Hx. apply Hall. now right. }
    rewrite Ef. destruct services; [contradiction|reflexivity].
  - split; [destruct services; [contradiction|simpl; lia]|].
    change 3 with (length [lit "AM"; lit "PM"; lit "1/2"]).
    apply submseteq_length, NoDup_submseteq; [exact Hnd|].
    intros x Hx. apply Hall, allowed_cases in Hx.
    rewrite !elem_of_cons. tauto.
  - exact Hnd.
  - intros x Hx. now apply allowed_cases, Hall.
Qed.

Lemma parseServices_fixed_point_witness :
  parseServices
    (servicesForm [[32; 80; 77; 9]%N; lit "AM"; lit "PM"; [0; 65; 77; 32]%N])
    = Return [lit "PM"; lit "AM"] /\
  parseServices (servicesForm [lit "PM"; lit "AM"]) = Return [lit "PM"; lit "AM"].
Proof.
  split; [reflexivity|].
  exact (proj1 (parseServices_fixed_point
                  (servicesForm [[32; 80; 77; 9]%N; lit "AM"; lit "PM"; [0; 65; 77; 32]%N])
                  [lit "PM"; lit "AM"] eq_refl)).
Defined.

End ServicesMore.

(** ** Client identification: never empty, and the first address read back *)

Section ClientIdMore.

Implicit Types (req : NextRequest) (f id : jsstring).

Lemma firstSegment_no_comma id (rest : jsstring) :
  COMMA ∉ id ->
  firstSegment id = id /\ firstSegment (id ++ COMMA :: rest) = id.
Proof.
  induction id as [|c r IH]; simpl; intros H.
  - split; reflexivity.
  - rewrite not_elem_of_cons in H. destruct H as [Hc Hr].
    destruct (c =? COMMA)%N eqn:E; [apply N.eqb_eq in E; congruence|].
    destruct (IH Hr) as [-> ->]. auto.
Qed.

Lemma trim_id id :
  headNotSpace id = true -> lastNotSpace id = true -> trim id = id.
Proof.
  intros Hh Hl. unfold trim. rewrite (trimStart_id id Hh). now apply trimEnd_id.
Qed.

Lemma trim_infix s : exists p q, s = p ++ trim s ++ q.
Proof.
  unfold trim. destruct (trimStart_split s) as [p [Hp _]].
  destruct (trimEnd_split (trimStart s)) as [q [Hq _]].
  exists p, q. now rewrite <- Hq.
Qed.

(** X12. The client identifier is never the empty string; and when it comes
    from a forwarded-for header it holds no comma and neither starts nor
    ends with whitespace. *)
Theorem getClientId_shape req :
  getClientId req <> [] /\
  (forall f, headers req !! lit "x-forwarded-for" = Some f -> f <> [] ->
     (COMMA ∉ getClientId req) /\
     headNotSpace (getClientId req) = true /\
     lastNotSpace (getClientId req) = true).
Proof.
  unfold getClientId. split.
  - assert (Hor : forall x, orDefault x (lit "unknown") <> []).
    { intros [[|c s]|]; simpl; discriminate. }
    destruct (headers req !! lit "x-forwarded-for") as [f|]; [|apply Hor].
    destruct (truthy f); apply Hor.
  - intros f -> Hf. destruct f as [|c0 f0]; [contradiction|].
    simpl truthy. cbv iota. unfold orDefault.
    destruct (truthy (trim (firstSegment (c0 :: f0)))) eqn:T.
    + split; [|split].
      * destruct (firstSegment_split (c0 :: f0)) as [Hno _].
        destruct (trim_infix (firstSegment (c0 :: f0))) as (p & q & E).
        intros Hin. apply Hno. rewrite E. rewrite !elem_of_app. auto.
      * unfold trim.
        destruct (trimEnd_split (trimStart (firstSegment (c0 :: f0)))) as [q [Hq _]].
        pose proof (headNotSpace_trimStart (firstSegment (c0 :: f0))) as Hh.
        rewrite Hq in Hh. destruct (trimEnd _); [reflexivity|exact Hh].
      * unfold trim. apply lastNotSpace_trimEnd.
    + split; [|split]; try reflexivity.
      refine (bool_decide_unpack _ _). vm_compute. exact I.
Qed.

Lemma getClientId_shape_witness :
  headers (mkRequest {[lit "x-forwarded-for" := lit "198.51.100.4 , 10.0.0.1"]} None)
    !! lit "x-forwarded-for" = Some (lit "198.51.100.4 , 10.0.0.1") /\
  lastNotSpace
    (getClientId
       (mkRequest {[lit "x-forwarded-for" := lit "198.51.100.4 , 10.0.0.1"]} None))
    = true.
Proof.
  split; [reflexivity|].
  refine (proj2 (proj2 (proj2 (getClientId_shape
            (mkRequest {[lit "x-forwarded-for" := lit "198.51.100.4 , 10.0.0.1"]} None))
            (lit "198.51.100.4 , 10.0.0.1") eq_refl _))).
  discriminate.
Defined.

(** X13. An address that is not empty, holds no comma and neither starts nor
    ends with whitespace is read back as the identifier when it is the
    forwarded-for header or the first entry of its comma-separated list,
    whatever the other headers and the body of the request are. *)
Theorem getClientId_reads_first req id :
  id <> [] -> COMMA ∉ id ->
  headNotSpace id = true -> lastNotSpace id = true ->
  (headers req !! lit "x-forwarded-for" = Some id \/
   exists rest, headers req !! lit "x-forwarded-for" = Some (id ++ COMMA :: rest)) ->
  getClientId req = id.
Proof.
  intros Hne Hc Hh Hl Hx. unfold getClientId.
  destruct (firstSegment_no_comma id [] Hc) as [Hseg0 _].
  assert (Hor : orDefault (Some (trim id)) (lit "unknown") = id).
  { rewrite (trim_id id Hh Hl). unfold orDefault.
    destruct id; [contradiction|reflexivity]. }
  destruct Hx as [-> | [rest ->]].
  - assert (Ht : truthy id = true) by (destruct id; [contradiction|reflexivity]).
    rewrite Ht, Hseg0. exact Hor.
  - assert (Ht : truthy (id ++ COMMA :: rest) = true) by (destruct id; reflexivity).
    rewrite Ht, (proj2 (firstSegment_no_comma id rest Hc)). exact Hor.
Qed.

Lemma getClientId_reads_first_witness :
  lit "2001:db8::7" <> [] /\ (COMMA ∉ lit "2001:db8::7") /\
  headNotSpace (lit "2001:db8::7") = true /\ lastNotSpace (lit "2001:db8::7") = true /\
  getClientId
    (mkRequest
       (<[lit "x-forwarded-for" := lit "2001:db8::7" ++ COMMA :: lit " 10.0.0.1"]>
          {[lit "x-real-ip" := lit "203.0.113.7"]})
       None)
  = lit "2001:db8::7".
Proof.
  assert (Hc : COMMA ∉ lit "2001:db8::7").
  { refine (bool_decide_unpack _ _). vm_compute. exact I. }
  split; [discriminate|]. split; [exact Hc|]. split; [reflexivity|].
  split; [reflexivity|].
  apply getClientId_reads_first; [discriminate|exact Hc|reflexivity|reflexivity|].
  right. exists (lit " 10.0.0.1"). reflexivity.
Defined.

End ClientIdMore.

(** ** The handler: answers, effects and what reaches the store *)

Section GatewayMore.

Implicit Types (env : Env) (req : NextRequest) (w : World) (formData : FormData).

Lemma parseFields_Throw_status formData fields e :
  parseFields formData fields = Throw e ->
  exists ce, e = ThrownClientError ce /\ status ce = 400%Z.
Proof.
  intros H. apply parseFields_Throw in H as (before & key & options & after & _ & _ & H).
  now apply parseField_Throw in H.
Qed.

(** A successful [parseField] returns a value fit for the field. *)
Lemma parseField_valid formData key options v :
  (0 <= default 180%Z (maxLength options))%Z ->
  parseField formData key options = Return v ->
  validValue (key, options) v.
Proof.
  intros Hm H. apply parseField_Return in H as (value & _ & -> & Tv & Pv).
  unfold validValue. simpl snd.
  split; [intros E; rewrite E in Tv; discriminate|].
  split; [apply noControl_sanitizeText|].
  split; [apply singleSpaced_noWhitespaceRun, singleSpaced_sanitizeText|].
  split; [apply headNotSpace_sanitizeText|].
  split; [now apply slice0_length|exact Pv].
Qed.

Lemma parseFields_valid formData fields values :
  Forall (fun f => (0 <= default 180%Z (maxLength (snd f)))%Z) fields ->
  parseFields formData fields = Return values ->
  Forall2 validValue fields values.
Proof.
  intros Hb. revert values. induction Hb as [|[k o] rest Hk _ IH]; intros values; simpl.
  - intros [= <-]. constructor.
  - destruct (parseField formData k o) as [v|e] eqn:Ek; [|discriminate].
    destruct (parseFields formData rest) as [vs|e]; [|discriminate].
    intros [= <-]. constructor; [|now apply IH].
    now apply (parseField_valid formData).
Qed.

Lemma mandatoryFields_bounds :
  Forall (fun f => (0 <= default 180%Z (maxLength (snd f)))%Z) mandatoryFields.
Proof. repeat constructor; simpl; lia. Qed.

Lemma rowValues_rowOf values services :
  length values = length mandatoryFields ->
  rowValues (rowOf values services) = values /\
  service_options (rowOf values services) = services.
Proof.
  intros H. simpl in H.
  do 19 (destruct values as [|? values]; [discriminate|]).
  destruct values; [|discriminate]. split; reflexivity.
Qed.

(** X14. The handler never throws: it always answers, with status 200, 400,
    429 or 500; the answer reports success exactly when the status is 200,
    carries the confirmation and no error then and an error message and no
    confirmation otherwise; and it only appends to the events, between one
    and three of them. *)
Theorem POST_always_answers env req w :
  exists resp new,
    (POST env req w).1 = Return resp /\
    events (POST env req w).2 = events w ++ new /\
    (response_status resp = 200 \/ response_status resp = 400 \/
     response_status resp = 429 \/ response_status resp = 500)%Z /\
    (success (json resp) = true <-> response_status resp = 200%Z) /\
    (success (json resp) = true -> resp = successResponse) /\
    (success (json resp) = false ->
       json_message (json resp) = None /\ exists m, json_error (json resp) = Some m) /\
    1 <= length new <= 3.
Proof.
  assert (Hcaught : forall err st evs new,
            (match err with ThrownClientError e => status e | _ => 500 end = 400 \/
             match err with ThrownClientError e => status e | _ => 500 end = 429 \/
             match err with ThrownClientError e => status e | _ => 500 end = 500)%Z ->
            evs ++ [ConsoleError (lit "API ERROR:") (LoggedExn err)] = events w ++ new ->
            1 <= length new <= 3 ->
            exists resp new,
              (caught err st evs).1 = Return resp /\
              events (caught err st evs).2 = events w ++ new /\
              (response_status resp = 200 \/ response_status resp = 400 \/
               response_status resp = 429 \/ response_status resp = 500)%Z /\
              (success (json resp) = true <-> response_status resp = 200%Z) /\
              (success (json resp) = true -> resp = successResponse) /\
              (success (json resp) = false ->
                 json_message (json resp) = None /\
                 exists m, json_error (json resp) = Some m) /\
              1 <= length new <= 3).
  { intros err st evs new Hs Hev Hlen. eexists. exists new.
    split; [reflexivity|]. split; [exact Hev|]. simpl.
    split; [tauto|]. split; [split; [discriminate|lia]|].
    split; [discriminate|]. split; [|exact Hlen].
    intros _. split; [reflexivity|]. eauto. }
  rewrite POST_outcome. unfold outcome.
  destruct (enforceRateLimit _ _ _) as [[[]|e0] st] eqn:Erl.
  - destruct (body req) as [formData|].
    + destruct (parseFields formData mandatoryFields) as [values|e] eqn:Ef.
      * destruct (parseServices formData) as [services|e] eqn:Es.
        -- cbv zeta. destruct (insertOutcome env _) as [d|].
           ++ eapply Hcaught; [auto| |].
              ** rewrite <- app_assoc. reflexivity.
              ** simpl. lia.
           ++ exists successResponse. eexists. simpl.
              split; [reflexivity|]. split; [reflexivity|].
              split; [auto|]. split; [tauto|]. split; [auto|].
              split; [discriminate|]. simpl. lia.
        -- apply parseServices_Throw in Es. subst e.
           eapply Hcaught; [auto|reflexivity|simpl; lia].
      * apply parseFields_Throw_status in Ef as (ce & -> & Hce).
        eapply Hcaught; [auto|reflexivity|simpl; lia].
    + eapply Hcaught; [auto|reflexivity|simpl; lia].
  - apply enforce_Throw in Erl as (_ & -> & _).
    eapply Hcaught; [auto|reflexivity|simpl; lia].
Qed.

(** X15. On the rate-limit store the handler has the effect of
    [enforceRateLimit] and no other: a request that is admitted counts as a
    hit whether or not it then fails validation or the insert, and the
    entries of all other clients stay as they were. *)
Theorem POST_store_effect env req w :
  rateLimitStore (POST env req w).2
    = (enforceRateLimit (now env) (getClientId req) (rateLimitStore w)).2 /\
  (forall other, other <> getClientId req ->
     rateLimitStore (POST env req w).2 !! other = rateLimitStore w !! other).
Proof.
  assert (H : rateLimitStore (POST env req w).2
              = (enforceRateLimit (now env) (getClientId req) (rateLimitStore w)).2).
  { rewrite POST_outcome. unfold outcome.
    destruct (enforceRateLimit _ _ _) as [[[]|e0] st]; [|reflexivity].
    destruct (body req) as [formData|]; [|reflexivity].
    destruct (parseFields formData mandatoryFields); [|reflexivity].
    destruct (parseServices formData); [|reflexivity].
    cbv zeta. destruct (insertOutcome env _); reflexivity. }
  split; [exact H|].
  intros other Hne. rewrite H. apply enforce_other. congruence.
Qed.

(** X16. A request the rate limiter rejects is answered with the 429 error
    without its body being read or the store being called: the answer and
    the state after it are the same for every body and every store, the
    rate-limit store is unchanged, and one line is written to the error
    console. *)
Theorem POST_rate_limited env req w :
  ~ admits env req w ->
  POST env req w =
    (Return (errorResponse (message tooManyRequests) 429),
     mkWorld (rateLimitStore w)
       (events w ++ [ConsoleError (lit "API ERROR:")
                       (LoggedExn (ThrownClientError tooManyRequests))])) /\
  (forall env' req',
     now env' = now env -> headers req' = headers req ->
     POST env' req' w = POST env req w).
Proof.
  intros Hn. unfold admits in Hn.
  assert (Hrun : forall env' req',
            now env' = now env -> headers req' = headers req ->
            POST env' req' w =
              (Return (errorResponse (message tooManyRequests) 429),
               mkWorld (rateLimitStore w)
                 (events w ++ [ConsoleError (lit "API ERROR:")
                                 (LoggedExn (ThrownClientError tooManyRequests))]))).
  { intros env' req' Hnow Hh. rewrite POST_outcome. unfold outcome.
    assert (Hid : getClientId req' = getClientId req).
    { unfold getClientId. now rewrite Hh. }
    rewrite Hnow, Hid.
    destruct (enforceRateLimit _ _ _) as [[[]|e0] st] eqn:Erl.
    - now contradiction Hn.
    - apply enforce_Throw in Erl as (-> & -> & _). reflexivity. }
  split; [now apply Hrun|].
  intros env' req' Hnow Hh. rewrite (Hrun env' req' Hnow Hh).
  symmetry. now apply Hrun.
Qed.

Lemma POST_rate_limited_witness :
  ~ admits (mkEnv 5000 (fun _ => None)) (sampleRequest sampleForm)
      (mkWorld {[lit "203.0.113.7" := mkEntry 10 5001]} []) /\
  (POST (mkEnv 5000 (fun _ => None)) (sampleRequest sampleForm)
     (mkWorld {[lit "203.0.113.7" := mkEntry 10 5001]} [])).1
    = Return (errorResponse (message tooManyRequests) 429).
Proof.
  assert (Hn : ~ admits (mkEnv 5000 (fun _ => None)) (sampleRequest sampleForm)
                 (mkWorld {[lit "203.0.113.7" := mkEntry 10 5001]} [])).
  { unfold admits. vm_compute. discriminate. }
  split; [exact Hn|].
  now rewrite (proj1 (POST_rate_limited _ _ _ Hn)).
Defined.

(** X17. Every row the handler sends to the store is fit for it: each text
    field is not empty, free of control characters and whitespace runs, does
    not start with whitespace, is within the bound of its field and accepted
    by the pattern of its field; the service options are not empty, without
    duplicates, and among AM, PM and 1/2. *)
Theorem POST_inserts_valid_rows env req w rows :
  inserts (events (POST env req w).2) = inserts (events w) ++ rows ->
  Forall validRow rows.
Proof.
  rewrite POST_outcome. unfold outcome.
  assert (Hnone : forall err st,
            inserts (events (caught err st (events w)).2) = inserts (events w) ++ rows ->
            Forall validRow rows).
  { intros err st. rewrite inserts_caught. intros H.
    rewrite <- (app_nil_r (inserts (events w))) in H at 1.
    apply app_inv_head in H. subst rows. constructor. }
  destruct (enforceRateLimit _ _ _) as [[[]|e0] st]; [|apply Hnone].
  destruct (body req) as [formData|]; [|apply Hnone].
  destruct (parseFields formData mandatoryFields) as [values|e] eqn:Ef; [|apply Hnone].
  destruct (parseServices formData) as [services|e] eqn:Es; [|apply Hnone].
  cbv zeta.
  assert (Hrow : validRow (rowOf values services)).
  { pose proof (parseFields_valid _ _ _ mandatoryFields_bounds Ef) as Hv.
    destruct (rowValues_rowOf values services) as [Er Esv].
    { symmetry. now apply Forall2_length in Hv. }
    apply parseServices_Return in Es as (_ & Hne & Hnd & Hall).
    unfold validRow. rewrite Er, Esv. auto. }
  assert (Hone : inserts (events w ++ [StoreInsert (lit "submissions")
                                         (rowOf values services)])
                 = inserts (events w) ++ [rowOf values services]).
  { now rewrite inserts_app. }
  destruct (insertOutcome env _) as [d|].
  - rewrite inserts_caught, inserts_app. simpl. intros H.
    apply app_inv_head in H. subst rows. constructor; [exact Hrow|constructor].
  - simpl. rewrite Hone. intros H.
    apply app_inv_head in H. subst rows. constructor; [exact Hrow|constructor].
Qed.

Lemma POST_inserts_valid_rows_witness :
  exists row,
    inserts (events (POST (mkEnv 1000 (fun _ => None)) (sampleRequest sampleForm)
                       (mkWorld ∅ [])).2) = inserts [] ++ [row] /\
    Forall validRow [row] /\
    student_name row = lit "Ana Maria".
Proof.
  eexists. split; [reflexivity|]. split; [|reflexivity].
  apply (POST_inserts_valid_rows (mkEnv 1000 (fun _ => None))
           (sampleRequest sampleForm) (mkWorld ∅ [])).
  reflexivity.
Defined.

(** X18. An admitted request whose body cannot be read as a form is answered
    with the generic 500 error; nothing is sent to the store. *)
Theorem POST_unreadable_body env req w :
  admits env req w -> body req = None ->
  (POST env req w).1 = Return (errorResponse genericFailure 500) /\
  inserts (events (POST env req w).2) = inserts (events w).
Proof.
  intros Hadm Hbody. rewrite POST_outcome. unfold outcome, admits in *.
  destruct (enforceRateLimit _ _ _) as [c st]. simpl in Hadm. subst c.
  rewrite Hbody. split; [reflexivity|apply inserts_caught].
Qed.

Lemma POST_unreadable_body_witness :
  admits (mkEnv 1000 (fun _ => None)) (mkRequest ∅ None) (mkWorld ∅ []) /\
  (POST (mkEnv 1000 (fun _ => None)) (mkRequest ∅ None) (mkWorld ∅ [])).1
    = Return (errorResponse genericFailure 500).
Proof.
  assert (H : admits (mkEnv 1000 (fun _ => None)) (mkRequest ∅ None) (mkWorld ∅ [])).
  { reflexivity. }
  split; [exact H|].
  exact (proj1 (POST_unreadable_body _ _ _ H eq_refl)).
Defined.

Lemma parseFields_columns formData values services name options :
  parseFields formData mandatoryFields = Return values ->
  (fieldKey name, options) ∈ mandatoryFields ->
  parseField formData (fieldKey name) options
    = Return (column name (rowOf values services)).
Proof.
  intros Ef Hin. cbn [parseFields mandatoryFields] in Ef.
  repeat match type of Ef with
         | context [parseField formData ?k ?o] =>
             let E := fresh "E" in
             destruct (parseField formData k o) eqn:E; [|discriminate Ef]
         end.
  injection Ef as <-.
  apply list_elem_of_In in Hin. unfold mandatoryFields in Hin. simpl in Hin.
  repeat (destruct Hin as [Hin|Hin];
          [injection Hin as Hk Ho; subst options;
           destruct name;
           first [ exfalso; vm_compute in Hk; discriminate Hk
                 | assumption ]|]).
  contradiction.
Qed.

(** X19. The row sent to the store holds, in the column named after each
    text field, the value [parseField] returned for the first entry of the
    form under that name, and as its service options what [parseServices]
    returned; it is sent to the table [submissions]. *)
Theorem POST_row_content env req w table row :
  events (POST env req w).2 = events w ++ [StoreInsert table row]
  \/ (exists more, events (POST env req w).2
                   = events w ++ StoreInsert table row :: more) ->
  table = lit "submissions" /\
  exists formData,
    body req = Some formData /\
    (forall name options,
       (fieldKey name, options) ∈ mandatoryFields ->
       parseField formData (fieldKey name) options = Return (column name row)) /\
    parseServices formData = Return (service_options row).
Proof.
  intros Hev.
  assert (Hev' : exists more, events (POST env req w).2
                              = events w ++ StoreInsert table row :: more).
  { destruct Hev as [H|H]; [exists []; exact H|exact H]. }
  clear Hev. destruct Hev' as [more Hev]. revert Hev.
  rewrite POST_outcome. unfold outcome.
  assert (Hnone : forall err st,
            events (caught err st (events w)).2
              = events w ++ StoreInsert table row :: more -> False).
  { intros err st H. unfold caught in H. simpl in H.
    apply app_inv_head in H. discriminate H. }
  destruct (enforceRateLimit _ _ _) as [[[]|e0] st];
    [|intros H; exfalso; exact (Hnone _ _ H)].
  destruct (body req) as [formData|]; [|intros H; exfalso; exact (Hnone _ _ H)].
  destruct (parseFields formData mandatoryFields) as [values|e] eqn:Ef;
    [|intros H; exfalso; exact (Hnone _ _ H)].
  destruct (parseServices formData) as [services|e] eqn:Es;
    [|intros H; exfalso; exact (Hnone _ _ H)].
  cbv zeta.
  assert (Hrow : forall evs,
            events w ++ StoreInsert (lit "submissions") (rowOf values services) :: evs
              = events w ++ StoreInsert table row :: more ->
            table = lit "submissions" /\
            exists fd, Some formData = Some fd /\
              (forall name options,
                 (fieldKey name, options) ∈ mandatoryFields ->
                 parseField fd (fieldKey name) options = Return (column name row)) /\
              parseServices fd = Return (service_options row)).
  { intros evs H. apply app_inv_head in H. injection H as <- <- _.
    split; [reflexivity|]. exists formData. split; [reflexivity|]. split.
    - intros name options Hin. now apply parseFields_columns.
    - rewrite Es. reflexivity. }
  destruct (insertOutcome env _) as [d|].
  - unfold caught. simpl. rewrite <- app_assoc. simpl. apply Hrow.
  - simpl. apply Hrow.
Qed.

Lemma POST_row_content_witness :
  exists row,
    events (POST (mkEnv 1000 (fun _ => None)) (sampleRequest sampleForm)
              (mkWorld ∅ [])).2
      = events (mkWorld ∅ []) ++ [StoreInsert (lit "submissions") row] /\
    mother_email row = lit "maria@mail.co" /\
    lit "submissions" = lit "submissions" /\
    exists formData,
      body (sampleRequest sampleForm) = Some formData /\
      (forall name options,
         (fieldKey name, options) ∈ mandatoryFields ->
         parseField formData (fieldKey name) options = Return (column name row)) /\
      parseServices formData = Return (service_options row).
Proof.
  eexists. split; [vm_compute; reflexivity|]. split; [vm_compute; reflexivity|].
  apply (POST_row_content (mkEnv 1000 (fun _ => None)) (sampleRequest sampleForm)
           (mkWorld ∅ [])).
  left. vm_compute. reflexivity.
Defined.

End GatewayMore.

(** ** The form page against the route *)

Section Form.

Implicit Types (s t value : jsstring) (name : TextFieldName).

Lemma wordsFrom_blank_suffix cur s t :
  forallb isWhiteSpace t = true -> wordsFrom cur (s ++ t) = wordsFrom cur s.
Proof.
  intros Ht. revert cur. induction s as [|c r IH]; intros cur.
  - simpl. revert cur. induction t as [|d t' IHt]; intros cur; [reflexivity|].
    simpl in Ht. apply andb_true_iff in Ht as [Hd Ht']. simpl. rewrite Hd.
    rewrite (IHt Ht' []). simpl. now destruct (truthy cur).
  - simpl. destruct (isWhiteSpace c); [|apply IH].
    rewrite (IH []). reflexivity.
Qed.

Lemma wordsFrom_blank_prefix s t :
  forallb isWhiteSpace s = true -> wordsFrom [] (s ++ t) = wordsFrom [] t.
Proof.
  induction s as [|c r IH]; simpl; [easy|].
  intros H. apply andb_true_iff in H as [-> Hr]. simpl. auto.
Qed.

Lemma forallb_isWhiteSpace_removeControl s :
  forallb isWhiteSpace s = true -> forallb isWhiteSpace (removeControl s) = true.
Proof.
  intros H. apply removeControl_blank_iff.
  rewrite forallb_forall in *. intros c Hc. unfold blank.
  now rewrite (H c Hc), orb_true_r.
Qed.

(** Whitespace at the ends does not change the normalized text. *)
Lemma normalize_trim s : normalize (trim s) = normalize s.
Proof.
  rewrite !normalize_words. f_equal. unfold trim, wordsOf.
  destruct (trimStart_split s) as [p [Hp Hpw]].
  destruct (trimEnd_split (trimStart s)) as [q [Hq Hqw]].
  rewrite Hp at 2. rewrite Hq at 2.
  rewrite !removeControl_app.
  rewrite wordsFrom_blank_prefix by now apply forallb_isWhiteSpace_removeControl.
  rewrite wordsFrom_blank_suffix by now apply forallb_isWhiteSpace_removeControl.
  reflexivity.
Qed.

Lemma headNotSpace_trim s : headNotSpace (trim s) = true.
Proof.
  unfold trim. destruct (trimEnd_split (trimStart s)) as [q [Hq _]].
  pose proof (headNotSpace_trimStart s) as Hh. rewrite Hq in Hh.
  destruct (trimEnd _); [reflexivity|exact Hh].
Qed.

Lemma app_not_nil_l s t : s <> [] -> s ++ t <> [].
Proof. destruct s; [contradiction|discriminate]. Qed.

Lemma app_not_nil_r s t : t <> [] -> s ++ t <> [].
Proof. intros H E. apply app_eq_nil in E as [_ E]. contradiction. Qed.

Lemma orDefault_not_nil x d : d <> [] -> orDefault x d <> [].
Proof.
  intros Hd. unfold orDefault. destruct x as [[|c m]|]; simpl; [exact Hd| |exact Hd].
  discriminate.
Qed.

(** What [validateTextField] accepts. *)
Lemma validateTextField_accepts name value :
  validateTextField name value = [] <->
  trim value <> [] /\
  (Z.of_nat (length (trim value)) <= rule_maxLength (fieldRules name))%Z /\
  (forall p, rule_pattern (fieldRules name) = Some p -> p (trim value) = true).
Proof.
  unfold validateTextField.
  destruct (truthy (trim value)) eqn:T; cbn [negb].
  - assert (Hne : trim value <> []) by (intros E; rewrite E in T; discriminate).
    destruct (_ >? _)%Z eqn:L.
    + split.
      * intros H. exfalso. revert H.
        apply app_not_nil_r, app_not_nil_l. intros E. vm_compute in E. discriminate E.
      * intros (_ & Hl & _). apply Z.gtb_lt in L. lia.
    + assert (Hl : (Z.of_nat (length (trim value)) <= rule_maxLength (fieldRules name))%Z).
      { rewrite Z.gtb_ltb in L. now apply Z.ltb_ge in L. }
      destruct (rule_pattern (fieldRules name)) as [p|] eqn:P.
      * destruct (p (trim value)) eqn:Pv; cbn [negb].
        -- split; [|reflexivity]. intros _. repeat split; auto.
           intros p' [= <-]. exact Pv.
        -- split.
           ++ intros H. exfalso. revert H.
              apply orDefault_not_nil, app_not_nil_r, app_not_nil_l.
              intros E. vm_compute in E. discriminate E.
           ++ intros (_ & _ & H). specialize (H p eq_refl). congruence.
      * split; [|reflexivity]. intros _. repeat split; auto. discriminate.
  - split.
    + intros H. exfalso. revert H.
      apply app_not_nil_l. intros E. vm_compute in E. discriminate E.
    + intros (H & _). apply truthy_false_iff in T. contradiction.
Qed.

Lemma fieldRules_server name options :
  (fieldKey name, options) ∈ mandatoryFields ->
  maxLength options = Some (rule_maxLength (fieldRules name)) /\
  pattern options = rule_pattern (fieldRules name).
Proof.
  intros H. apply list_elem_of_In in H. unfold mandatoryFields in H. simpl in H.
  repeat (destruct H as [H|H];
          [injection H as Hk Ho; subst options;
           destruct name;
           first [ split; reflexivity | exfalso; vm_compute in Hk; discriminate Hk ]|]).
  contradiction.
Qed.

(** X20. The page and the route list the same text fields in the same
    order with the same bounds and patterns; and a text the page accepts for
    a field is accepted by the route, which returns it trimmed, provided the
    trimmed text holds no control character and no whitespace other than
    single spaces. *)
Theorem form_accepts_route_accepts :
  map fieldKey allTextFields = map fst mandatoryFields /\
  (forall name options,
     (fieldKey name, options) ∈ mandatoryFields ->
     maxLength options = Some (rule_maxLength (fieldRules name)) /\
     pattern options = rule_pattern (fieldRules name)) /\
  (forall name value options (formData : FormData),
     (fieldKey name, options) ∈ mandatoryFields ->
     get formData (fieldKey name) = Some (FormString value) ->
     validateTextField name value = [] ->
     noControl (trim value) -> singleSpaced (trim value) = true ->
     parseField formData (fieldKey name) options = Return (trim value)).
Proof.
  split; [reflexivity|]. split; [apply fieldRules_server|].
  intros name value options formData Hin G Hacc Hc Hs.
  apply fieldRules_server in Hin as [Hmax Hpat].
  apply validateTextField_accepts in Hacc as (Hne & Hl & Hp).
  assert (Hvalue : truthy value = true).
  { destruct value; [contradiction Hne; reflexivity|reflexivity]. }
  assert (Hsan : sanitizeText value (rule_maxLength (fieldRules name)) = trim value).
  { unfold sanitizeText. rewrite <- normalize_trim.
    rewrite (normalize_clean (trim value) Hc Hs (headNotSpace_trim value)).
    rewrite (trimEnd_id (trim value)) by (unfold trim; apply lastNotSpace_trimEnd).
    now apply slice0_id. }
  unfold parseField. rewrite G, Hmax, Hpat. simpl truthyValue. rewrite Hvalue.
  simpl. rewrite Hsan.
  assert (Ht : truthy (trim value) = true).
  { destruct (trim value); [contradiction|reflexivity]. }
  rewrite Ht. simpl.
  destruct (rule_pattern (fieldRules name)) as [p|] eqn:P; [|reflexivity].
  now rewrite (Hp p eq_refl).
Qed.

Lemma form_accepts_route_accepts_witness :
  ((fieldKey F_father_phone,
    mkOptions (Some 20%Z) phoneTest (Some (lit "celular del padre")))
     ∈ mandatoryFields) /\
  validateTextField F_father_phone (lit "  +57 300 1234567 ") = [] /\
  noControl (trim (lit "  +57 300 1234567 ")) /\
  singleSpaced (trim (lit "  +57 300 1234567 ")) = true /\
  parseField [(lit "father_phone", FormString (lit "  +57 300 1234567 "))]
    (fieldKey F_father_phone)
    (mkOptions (Some 20%Z) phoneTest (Some (lit "celular del padre")))
  = Return (lit "+57 300 1234567").
Proof.
  assert (Hin : (fieldKey F_father_phone,
                 mkOptions (Some 20%Z) phoneTest (Some (lit "celular del padre")))
                  ∈ mandatoryFields).
  { apply list_elem_of_In. unfold mandatoryFields. simpl. tauto. }
  assert (Hc : noControl (trim (lit "  +57 300 1234567 "))).
  { apply List.Forall_forall. intros c Hc.
    apply (proj1 (forallb_forall (fun c => negb (isControl c))
                    (trim (lit "  +57 300 1234567 "))) eq_refl) in Hc.
    now apply negb_true_iff in Hc. }
  split; [exact Hin|]. split; [reflexivity|]. split; [exact Hc|].
  split; [reflexivity|].
  apply (proj2 (proj2 form_accepts_route_accepts) F_father_phone
           (lit "  +57 300 1234567 ") _
           [(lit "father_phone", FormString (lit "  +57 300 1234567 "))]
           Hin eq_refl eq_refl Hc eq_refl).
Defined.

Lemma uniqueFrom_not_nil (l : list jsstring) : l <> [] -> uniqueFrom [] l <> [].
Proof.
  destruct l as [|x r]; [contradiction|]. intros _. simpl. discriminate.
Qed.

Lemma serviceOptions_allowed (x : jsstring) :
  x ∈ serviceOptions <-> x ∈ ALLOWED_SERVICES.
Proof.
  rewrite allowed_cases. unfold serviceOptions.
  rewrite !elem_of_cons, elem_of_nil. tauto.
Qed.

Lemma filter_nil_iff {A} (f : A -> bool) (l : list A) :
  List.filter f l = [] <-> forall x, In x l -> f x = false.
Proof.
  induction l as [|y r IH]; simpl; [tauto|].
  destruct (f y) eqn:E.
  - split; [discriminate|]. intros H. specialize (H y (or_introl eq_refl)). congruence.
  - rewrite IH. split; [intros H x [<-|Hx]; auto|auto].
Qed.

(** X21. The page accepts a selection of services exactly when one of the
    selected values is AM, PM or 1/2.  For a selection made of those values
    only, as the type of the page has it, the page accepts it exactly when
    it is not empty, and the route then accepts it too and returns it
    without its duplicates. *)
Theorem validateServices_accepts (services : list jsstring) :
  (validateServices services = [] <->
     exists x, x ∈ services /\ x ∈ serviceOptions) /\
  ((forall x, x ∈ services -> x ∈ serviceOptions) ->
     (validateServices services = [] <-> services <> []) /\
     (services <> [] ->
        parseServices (servicesForm services) = Return (uniqueFrom [] services))).
Proof.
  assert (Hacc : validateServices services = [] <->
                 exists x, x ∈ services /\ x ∈ serviceOptions).
  { unfold validateServices.
    destruct (List.filter _ (uniqueFrom [] services)) as [|v valid] eqn:Ev.
    - simpl. split; [intros E; vm_compute in E; discriminate E|].
      intros (x & Hx & Hopt). exfalso.
      assert (Hf : bool_decide (x ∈ serviceOptions) = false).
      { apply (proj1 (filter_nil_iff _ _) Ev x).
        apply list_elem_of_In, elem_of_uniqueFrom.
        split; [exact Hx|apply not_elem_of_nil]. }
      rewrite bool_decide_eq_true_2 in Hf by exact Hopt. discriminate.
    - simpl. split; [|reflexivity]. intros _.
      assert (Hv : In v (List.filter
                           (fun option => bool_decide (option ∈ serviceOptions))
                           (uniqueFrom [] services))) by (rewrite Ev; now left).
      apply List.filter_In in Hv as [Hv Hopt].
      apply list_elem_of_In, elem_of_uniqueFrom in Hv as [Hv _].
      exists v. split; [exact Hv|]. now apply bool_decide_eq_true in Hopt. }
  split; [exact Hacc|]. intros Hall. split.
  - rewrite Hacc. split.
    + intros (x & Hx & _) ->. now apply elem_of_nil in Hx.
    + intros Hne. destruct services as [|x r]; [contradiction|].
      exists x. split; [now left|]. apply Hall. now left.
  - intros Hne.
    assert (Hall' : forall x, x ∈ services -> x ∈ ALLOWED_SERVICES).
    { intros x Hx. now apply serviceOptions_allowed, Hall. }
    unfold parseServices. fold (sanitizedServices (servicesForm services)).
    rewrite (sanitizedServices_allowed services Hall').
    assert (Ef : List.filter (fun s => negb (bool_decide (s ∈ ALLOWED_SERVICES)))
                   (uniqueFrom [] services) = []).
    { apply filter_nil_iff. intros x Hx.
      apply list_elem_of_In, elem_of_uniqueFrom in Hx as [Hx _].
      rewrite bool_decide_eq_true_2; [reflexivity|now apply Hall']. }
    rewrite Ef. pose proof (uniqueFrom_not_nil services Hne) as Hu.
    destruct (uniqueFrom [] services); [contradiction|reflexivity].
Qed.

Lemma validateServices_accepts_witness :
  (forall x, x ∈ [lit "PM"; lit "AM"; lit "PM"] -> x ∈ serviceOptions) /\
  [lit "PM"; lit "AM"; lit "PM"] <> [] /\
  validateServices [lit "PM"; lit "AM"; lit "PM"] = [] /\
  parseServices (servicesForm [lit "PM"; lit "AM"; lit "PM"])
    = Return [lit "PM"; lit "AM"].
Proof.
  assert (Hall : forall x, x ∈ [lit "PM"; lit "AM"; lit "PM"] -> x ∈ serviceOptions).
  { intros x Hx. unfold serviceOptions. rewrite !elem_of_cons in *.
    rewrite elem_of_nil in Hx. tauto. }
  split; [exact Hall|]. split; [discriminate|]. split; [reflexivity|].
  apply (proj2 (proj2 (validateServices_accepts [lit "PM"; lit "AM"; lit "PM"]) Hall)).
  discriminate.
Defined.

Lemma filter_neq_fresh (l : list jsstring) (x : jsstring) :
  x ∉ l -> List.filter (fun value => negb (bool_decide (value = x))) l = l.
Proof.
  induction l as [|y r IH]; simpl; [reflexivity|].
  rewrite not_elem_of_cons. intros [Hy Hr].
  rewrite bool_decide_eq_false_2 by congruence. simpl. now rewrite IH.
Qed.

(** X22. Ticking a service adds it to the selection and clearing it removes
    it, the other selected values staying as they are; a selection without
    duplicates stays so, ticking always leaves one without duplicates, and
    ticking a service that was not selected and clearing it again gives the
    selection back. *)
Theorem nextServices_spec (prev : list jsstring) (option : jsstring) :
  (forall x, x ∈ nextServices prev option true <-> x ∈ prev \/ x = option) /\
  (forall x, x ∈ nextServices prev option false <-> x ∈ prev /\ x <> option) /\
  NoDup (nextServices prev option true) /\
  (NoDup prev -> NoDup (nextServices prev option false)) /\
  (NoDup prev -> option ∉ prev ->
     nextServices prev option true = prev ++ [option] /\
     nextServices (nextServices prev option true) option false = prev).
Proof.
  unfold nextServices. split; [|split; [|split; [|split]]].
  - intros x. rewrite elem_of_uniqueFrom, elem_of_app, list_elem_of_singleton.
    split; [tauto|]. intros H. split; [exact H|apply not_elem_of_nil].
  - intros x. rewrite list_elem_of_In, List.filter_In, <- list_elem_of_In.
    rewrite negb_true_iff, bool_decide_eq_false. tauto.
  - apply NoDup_uniqueFrom.
  - intros H. apply NoDup_ListNoDup, List.NoDup_filter. now apply NoDup_ListNoDup.
  - intros Hnd Hfresh.
    assert (Hnd' : NoDup (prev ++ [option])).
    { apply NoDup_app. split; [exact Hnd|]. split.
      - intros x Hx Hx'. apply list_elem_of_singleton in Hx'. now subst.
      - apply NoDup_singleton. }
    assert (E : uniqueFrom [] (prev ++ [option]) = prev ++ [option]).
    { apply uniqueFrom_NoDup; [exact Hnd'|]. intros; apply not_elem_of_nil. }
    split; [exact E|]. simpl. rewrite E, List.filter_app. simpl.
    rewrite bool_decide_eq_true_2 by reflexivity. simpl.
    rewrite app_nil_r. now apply filter_neq_fresh.
Qed.

Lemma nextServices_spec_witness :
  NoDup [lit "AM"] /\ (lit "1/2" ∉ [lit "AM"]) /\
  nextServices [lit "AM"] (lit "1/2") true = [lit "AM"; lit "1/2"] /\
  nextServices (nextServices [lit "AM"] (lit "1/2") true) (lit "1/2") false = [lit "AM"].
Proof.
  assert (Hnd : NoDup [lit "AM"]) by apply NoDup_singleton.
  assert (Hf : lit "1/2" ∉ [lit "AM"]).
  { rewrite list_elem_of_singleton. discriminate. }
  split; [exact Hnd|]. split; [exact Hf|].
  exact (proj2 (proj2 (proj2 (proj2 (nextServices_spec [lit "AM"] (lit "1/2")))))
           Hnd Hf).
Defined.

Lemma fold_errors_not_empty (values : FormValues) (fields : list TextFieldName)
    (errs : gmap jsstring jsstring) :
  errs <> ∅ ->
  fold_left
    (fun errs key =>
       if truthy (validateTextField key (texts values key))
       then <[fieldKey key := validateTextField key (texts values key)]> errs
       else errs) fields errs <> ∅.
Proof.
  revert errs. induction fields as [|k r IH]; intros errs H; simpl; [exact H|].
  apply IH. destruct (truthy _); [apply insert_non_empty|exact H].
Qed.

Lemma fold_errors_empty (values : FormValues) (fields : list TextFieldName) :
  fold_left
    (fun (errs : gmap jsstring jsstring) key =>
       if truthy (validateTextField key (texts values key))
       then <[fieldKey key := validateTextField key (texts values key)]> errs
       else errs) fields ∅ = (∅ : gmap jsstring jsstring)
  <-> Forall (fun key => validateTextField key (texts values key) = []) fields.
Proof.
  induction fields as [|k r IH]; simpl.
  - split; [constructor|reflexivity].
  - rewrite Forall_cons. destruct (truthy _) eqn:T.
    + split.
      * intros H. exfalso. revert H. apply fold_errors_not_empty, insert_non_empty.
      * intros [E _]. rewrite E in T. discriminate.
    + apply truthy_false_iff in T. rewrite IH. tauto.
Qed.

(** X23. [validateAll] returns the empty object, the condition under which
    the page posts the form, exactly when every text field and the selection
    of services are accepted. *)
Theorem validateAll_empty (values : FormValues) :
  validateAll values = ∅ <->
  (forall name, validateTextField name (texts values name) = []) /\
  validateServices (selected values) = [].
Proof.
  unfold validateAll.
  assert (Hall : Forall (fun key => validateTextField key (texts values key) = [])
                   allTextFields
                 <-> forall name, validateTextField name (texts values name) = []).
  { rewrite List.Forall_forall. split.
    - intros H name. apply H. destruct name; simpl; tauto.
    - intros H name _. apply H. }
  destruct (truthy (validateServices (selected values))) eqn:T.
  - split.
    + intros H. exfalso. revert H. apply insert_non_empty.
    + intros [_ E]. rewrite E in T. discriminate.
  - apply truthy_false_iff in T. rewrite fold_errors_empty, Hall. tauto.
Qed.

End Form.
